(** * QLever: result tables, value getters and literal expressions

    A shallow embedding of
    - [src/engine/ResultTable.h] (completion latch, move construction,
      [getDataAsVarSize]),
    - [src/engine/sparqlExpressions/SparqlExpressionValueGetters.h]
      (the value getters), and
    - [src/engine/sparqlExpressions/LiteralExpression.h]
      ([evaluate], [evaluateIfVariable], [getCacheKey]),
    followed by the properties of these functions.

    C++ calls that can fail are functions into [Outcome]: a normal return,
    a thrown exception, or a fatal stop (failed [assert], undefined
    behaviour).  Member functions that touch mutable state take the state
    and give the new one back. *)

From stdpp Require Import base numbers strings list gmap pretty.
From Stdlib Require Import ZArith Lia.

Local Open Scope string_scope.
Local Open Scope list_scope.
Local Open Scope nat_scope.

(** ** Outcomes of a C++ call *)

Inductive Exception : Type :=
| AdException (msg : string)   (* AD_THROW(msg) *)
| RuntimeError (msg : string)  (* std::runtime_error *)
| OutOfRange                   (* std::out_of_range of a checked [at] *)
| CancellationException.       (* thrown by [throwIfCancelled] *)

Inductive Fatal : Type :=
| AssertionFailure     (* a failed [assert]: the process is aborted *)
| UndefinedBehaviour.  (* e.g. reading through a null or mistyped pointer *)

Inductive Outcome (A : Type) : Type :=
| Returned (a : A)
| Thrown (e : Exception)
| Crashed (f : Fatal).
Arguments Returned {A} a.
Arguments Thrown {A} e.
Arguments Crashed {A} f.

Definition bindOutcome {A B} (o : Outcome A) (k : A → Outcome B) : Outcome B :=
  match o with
  | Returned a => k a
  | Thrown e => Thrown e
  | Crashed f => Crashed f
  end.

#[global] Instance Outcome_ret : MRet Outcome := @Returned.
#[global] Instance Outcome_bind : MBind Outcome :=
  λ A B k o, bindOutcome o k.

Definition isReturned {A} (o : Outcome A) : bool :=
  match o with Returned _ => true | _ => false end.

Definition isError {A} (o : Outcome A) : bool := negb (isReturned o).

(** How the translation unit is compiled: with the macro [NDEBUG] defined
    or not.  The sources do not fix it, so what depends on it has the build
    as an implicit argument. *)
Class Build : Type := { NDEBUG : bool }.

Definition debugBuild : Build := {| NDEBUG := false |}.
Definition releaseBuild : Build := {| NDEBUG := true |}.

(** [assert(cond)] of <cassert>.  With [NDEBUG] the macro expands to nothing
    and [cond] is not evaluated; without it [cond] is evaluated, which can
    itself go wrong, and the process is aborted when it is false. *)
Definition assert `{Build} (cond : Outcome bool) : Outcome unit :=
  if NDEBUG then Returned ()
  else
    holds ← cond;
    if holds : bool then Returned () else Crashed AssertionFailure.

(** ** Identifiers *)

Module ValueId.

Local Open Scope Z_scope.

Inductive Datatype : Type :=
| Undefined | Bool | Int | Double | VocabIndex | LocalVocabIndex
| TextRecordIndex | Date | WordVocabIndex.

#[global] Instance Datatype_eq_dec : EqDecision Datatype.
Proof. solve_decision. Defined.

(** Modelled from the spec: [global/Id.h] is not among the sources.  An
    identifier is a fixed-size, bit-packed tagged union; two identifiers are
    equal iff they have the same tag and the same payload.  The payload is
    kept as the unsigned value of the data bits. *)
Record t : Type := Build { getDatatype : Datatype; dataBits : Z }.

#[global] Instance t_eq_dec : EqDecision t.
Proof. solve_decision. Defined.

Definition numDatatypeBits : Z := 4.
Definition numDataBits : Z := 64 - numDatatypeBits.
Definition dataMask : Z := Z.ones numDataBits.

Definition datatypeTag (d : Datatype) : Z :=
  match d with
  | Undefined => 0 | Bool => 1 | Int => 2 | Double => 3 | VocabIndex => 4
  | LocalVocabIndex => 5 | TextRecordIndex => 6 | Date => 7
  | WordVocabIndex => 8
  end.

(** The 64-bit pattern: the tag in the high bits, the payload below. *)
Definition getBits (id : t) : Z :=
  Z.lor (Z.shiftl (datatypeTag (getDatatype id)) numDataBits)
        (Z.land (dataBits id) dataMask).

Definition makeUndefined : t := Build Undefined 0.
Definition makeFromBool (b : bool) : t := Build Bool (if b then 1 else 0).
(** A signed integer is stored in two's complement on the data bits. *)
Definition makeFromInt (i : Z) : t := Build Int (Z.land i dataMask).
Definition makeFromVocabIndex (i : Z) : t := Build VocabIndex (Z.land i dataMask).
(** A double is kept by the high data bits of its IEEE-754 pattern: the
    low bits of the mantissa make room for the tag. *)
Definition makeFromDoubleBits (b : Z) : t :=
  Build Double (Z.shiftr (Z.land b (Z.ones 64)) numDatatypeBits).

Definition getBool (id : t) : bool := negb (Z.land (dataBits id) dataMask =? 0)%Z.
Definition getInt (id : t) : Z :=
  let u := Z.land (dataBits id) dataMask in
  if Z.testbit u (numDataBits - 1) then u - 2 ^ numDataBits else u.
(** Zero test on the kept bits of a double: everything but the sign bit
    is clear (+0.0 and -0.0). *)
Definition doubleIsZero (id : t) : bool :=
  (Z.land (dataBits id) (Z.ones (numDataBits - 1)) =? 0)%Z.

End ValueId.

Abbreviation Id := ValueId.t.

#[global] Instance Id_inhabited : Inhabited Id := populate ValueId.makeUndefined.

(** [IdOrString = std::variant<ValueId, std::string>] *)
Definition IdOrString : Type := Id + string.

(** ** ResultTable *)

Module ResultTable.

Inductive Status : Type := FINISHED | OTHER.
Inductive ResultType : Type := KB | VERBATIM | TEXT.

#[global] Instance Status_eq_dec : EqDecision Status.
Proof. solve_decision. Defined.

(** What [_fixedSizeData] points to when it is not null: a
    [vector<array<Id, arity>>].  The pointer itself is a [void*], so the
    arity is not visible to the table: it is a property of the pointee. *)
Record FixedSizeVector : Type :=
  { arity : nat; elements : list (list Id) }.

Definition wellFormed (v : FixedSizeVector) : Prop :=
  Forall (λ row, length row = arity v) (elements v).

Record t : Type := Build
  { _nofColumns : nat;
    _sortedBy : nat;
    _varSizeData : list (list Id);
    _fixedSizeData : option FixedSizeVector;  (* nullptr is [None] *)
    _resultTypes : list ResultType;
    _status : Status }.

(** The two representations of the rows.  A table holds [rows] in
    fixed-width storage of arity [n] when the pointer leads to them and the
    column count says [n]; it holds them in variable-width storage when
    they are in [_varSizeData] and the pointer is null.  Either way every
    row has as many entries as the table has columns. *)
Definition holdsFixed (r : t) (n : nat) (rows : list (list Id)) : Prop :=
  _nofColumns r = n ∧ _varSizeData r = []
  ∧ _fixedSizeData r = Some {| arity := n; elements := rows |}
  ∧ Forall (λ row, length row = n) rows.

Definition holdsVariable (r : t) (rows : list (list Id)) : Prop :=
  _fixedSizeData r = None ∧ _varSizeData r = rows
  ∧ Forall (λ row, length row = _nofColumns r) rows.

(** [friend void swap(ResultTable& a, ResultTable& b)]: five members are
    exchanged; [_resultTypes] is not among them. *)
Definition swap (a b : t) : t * t :=
  (Build (_nofColumns b) (_sortedBy b) (_varSizeData b) (_fixedSizeData b)
         (_resultTypes a) (_status b),
   Build (_nofColumns a) (_sortedBy a) (_varSizeData a) (_fixedSizeData a)
         (_resultTypes b) (_status a)).

(** [ResultTable(ResultTable&& other)]: the new object is initialised to
    the values of the initialiser list, then swapped with [other].  The
    result is the new table and what is left in [other]. *)
Definition moveConstruct (other : t) : t * t :=
  swap (Build 0 0 [] None [] OTHER) other.

(** [operator=(ResultTable&& other)] *)
Definition moveAssign (this other : t) : t * t := swap this other.

(** *** The completion latch.  Each of the three member functions runs
    with [_cond_var_m] held, so each is one atomic step on the table. *)

Definition setStatus (s : Status) (r : t) : t :=
  Build (_nofColumns r) (_sortedBy r) (_varSizeData r) (_fixedSizeData r)
        (_resultTypes r) s.

Definition finish (r : t) : t := setStatus FINISHED r.

Definition isFinished (r : t) : bool := bool_decide (_status r = FINISHED).

(** [awaitFinished]: [_cond_var.wait(lk, pred)] returns once [pred] holds
    and keeps the caller blocked while it does not.  [None] is "still
    blocked"; the table is not changed either way. *)
Definition awaitFinished (r : t) : option unit :=
  if bool_decide (_status r = FINISHED) then Some () else None.

Inductive Call : Type := CallFinish | CallIsFinished | CallAwaitFinished.

Inductive Event : Type :=
| FinishReturned
| IsFinishedReturned (b : bool)
| AwaitFinishedReturned.

(** One critical section: [None] when the call cannot return in this
    state (a waiter on a table that is not finished). *)
Definition perform (c : Call) (r : t) : option (Event * t) :=
  match c with
  | CallFinish => Some (FinishReturned, finish r)
  | CallIsFinished => Some (IsFinishedReturned (isFinished r), r)
  | CallAwaitFinished =>
      match awaitFinished r with
      | Some _ => Some (AwaitFinishedReturned, r)
      | None => None
      end
  end.

(** The table after a sequence of critical sections, whatever threads they
    come from, and the events they returned. *)
Inductive steps : t → list Event → t → Prop :=
| steps_nil r : steps r [] r
| steps_cons c r e r' es r'' :
    perform c r = Some (e, r') → steps r' es r'' → steps r (e :: es) r''.

(** For running a schedule: calls that block are skipped and retried by
    nobody. *)
Fixpoint run (cs : list Call) (r : t) : list Event * t :=
  match cs with
  | [] => ([], r)
  | c :: cs' =>
      match perform c r with
      | Some (e, r') => let '(es, r'') := run cs' r' in (e :: es, r'')
      | None => run cs' r
      end
  end.

(** *** getDataAsVarSize *)

(** [*static_cast<vector<array<Id, N>>*>(_fixedSizeData)]: defined only
    when the pointer is not null and points to a vector of that type. *)
Definition derefAs (N : nat) (p : option FixedSizeVector)
  : Outcome (list (list Id)) :=
  match p with
  | None => Crashed UndefinedBehaviour
  | Some v =>
      if decide (arity v = N) then Returned (elements v)
      else Crashed UndefinedBehaviour
  end.

(** [data[i][j]] *)
Definition cell (data : list (list Id)) (i j : nat) : Id :=
  (data !!! i) !!! j.

(** [for (size_t i = 0; i < data.size(); ++i) res.emplace_back(row i)] *)
Definition emplaceAll (row : nat → list Id) (size : nat) : list (list Id) :=
  foldl (λ res i, res ++ [row i]) [] (seq 0 size).

Definition getDataAsVarSize (r : t) : Outcome (list (list Id)) :=
  if bool_decide (0 < length (_varSizeData r)) then
    Returned (_varSizeData r)
  else if decide (_nofColumns r = 1) then
    data ← derefAs 1 (_fixedSizeData r);
    Returned (emplaceAll (λ i, [cell data i 0]) (length data))
  else if decide (_nofColumns r = 2) then
    data ← derefAs 2 (_fixedSizeData r);
    Returned (emplaceAll (λ i, [cell data i 0; cell data i 1]) (length data))
  else if decide (_nofColumns r = 3) then
    data ← derefAs 3 (_fixedSizeData r);
    Returned (emplaceAll (λ i, [cell data i 0; cell data i 1; cell data i 2])
                         (length data))
  else if decide (_nofColumns r = 4) then
    data ← derefAs 4 (_fixedSizeData r);
    Returned (emplaceAll
                (λ i, [cell data i 0; cell data i 1; cell data i 2;
                       cell data i 3])
                (length data))
  else if decide (_nofColumns r = 5) then
    data ← derefAs 5 (_fixedSizeData r);
    Returned (emplaceAll
                (λ i, [cell data i 0; cell data i 1; cell data i 2;
                       cell data i 3; cell data i 4])
                (length data))
  else Returned [].

(** [getResultType(col)] *)
Definition getResultType (r : t) (col : nat) : ResultType :=
  match _resultTypes r !! col with
  | Some ty => ty
  | None => KB
  end.

End ResultTable.

(** ** Expression results and the evaluation context *)

(** [class Variable] ([Variable] is a keyword here). *)
Record SparqlVariable : Type := mkVariable { name : string }.

#[global] Instance Variable_eq_dec : EqDecision SparqlVariable.
Proof. solve_decision. Defined.

#[global] Instance Variable_countable : Countable SparqlVariable :=
  inj_countable' name mkVariable (λ v, match v with mkVariable _ => eq_refl end).

(** Modelled from the spec: [SparqlExpressionTypes.h] is not among the
    sources.  One alternative per type that [LiteralExpression] returns: an
    identifier, an identifier-or-string, a variable left to the caller, a
    whole column of identifiers. *)
Inductive ExpressionResult : Type :=
| IdResult (id : Id)
| IdOrStringResult (v : IdOrString)
| VariableResult (v : SparqlVariable)
| VectorResult (v : list Id).

(** [std::get_if<Variable>(&result)] *)
Definition get_if_Variable (r : ExpressionResult) : option SparqlVariable :=
  match r with
  | VariableResult v => Some v
  | _ => None
  end.

Record ColumnIndexAndTypeInfo : Type :=
  { columnIndex_ : nat; mightContainUndef_ : bool }.

Abbreviation VariableToColumnMap := (gmap SparqlVariable ColumnIndexAndTypeInfo).

(** Modelled from the spec: the index with its vocabulary is an external
    collaborator, seen through [lookupId(rawString) -> optional<Id>] and the
    string-form resolution of an identifier. *)
Record Index : Type :=
  { getId : string → option Id;
    idToString : Id → option string }.

(** Modelled from the spec: the table an evaluation context views, as rows
    of identifiers; [at] is the bounds-checked access. *)
Record IdTable : Type := { numColumns : nat; rows : list (list Id) }.

Definition IdTable_at (table : IdTable) (row column : nat) : Outcome Id :=
  match rows table !! row with
  | Some r =>
      match r !! column with
      | Some id => Returned id
      | None => Thrown OutOfRange
      end
  | None => Thrown OutOfRange
  end.

(** The rows from [table.begin() + b] up to [table.begin() + e].  The two
    iterators form a range only when [b ≤ e] and [e] is not past the end of
    the table; going over anything else is undefined. *)
Definition IdTable_range (table : IdTable) (b e : nat)
  : Outcome (list (list Id)) :=
  if bool_decide (b ≤ e ≤ length (rows table))
  then Returned (take (e - b) (drop b (rows table)))
  else Crashed UndefinedBehaviour.

(** Modelled from the spec: the evaluation context (a row range of a table,
    the variable-to-column mapping, the grouped variables, the results of
    earlier aliases of the same clause, the cancellation signal). *)
Record EvaluationContext : Type :=
  { _qec_index : Index;
    _inputTable : IdTable;
    _beginIndex : nat;
    _endIndex : nat;
    _variableToColumnMap : VariableToColumnMap;
    _groupedVariables : gset SparqlVariable;
    _previousResultsFromSameGroup : gmap SparqlVariable ExpressionResult;
    cancellationHandle_isCancelled : bool }.

Definition getResultFromPreviousAggregate
    (ctx : EvaluationContext) (var : SparqlVariable) : option ExpressionResult :=
  _previousResultsFromSameGroup ctx !! var.

Definition getColumnIndexForVariable
    (ctx : EvaluationContext) (var : SparqlVariable) : Outcome nat :=
  match _variableToColumnMap ctx !! var with
  | Some info => Returned (columnIndex_ info)
  | None =>
      Thrown (RuntimeError
                ("Variable " +:+ name var +:+
                 " was not found in input to expression."))
  end.

(** [cancellationHandle_->throwIfCancelled()] *)
Definition throwIfCancelled (ctx : EvaluationContext) : Outcome unit :=
  if cancellationHandle_isCancelled ctx then Thrown CancellationException
  else Returned ().

(** ** Value getters *)

Module ValueGetters.

Definition quote : Ascii.ascii := Ascii.ascii_of_nat 34.

Definition starts_with (c : Ascii.ascii) (s : string) : bool :=
  match s with
  | String c' _ => bool_decide (c' = c)
  | EmptyString => false
  end.

Fixpoint ends_with (c : Ascii.ascii) (s : string) : bool :=
  match s with
  | EmptyString => false
  | String c' EmptyString => bool_decide (c' = c)
  | String _ rest => ends_with c rest
  end.

Inductive EffectiveBoolean : Type := False_ | True_ | Undef.

(** Modelled from the spec: the overload of the effective-boolean getter
    on identifiers is only declared in the header.  "Identifiers convert
    per their datatype (numeric zero/false → False, nonzero/true → True,
    undefined or non-boolean-convertible → Undef)". *)
Definition EffectiveBooleanValueGetter_Id
    (id : Id) (ctx : EvaluationContext) : EffectiveBoolean :=
  match ValueId.getDatatype id with
  | ValueId.Int => if (ValueId.getInt id =? 0)%Z then False_ else True_
  | ValueId.Double => if ValueId.doubleIsZero id then False_ else True_
  | ValueId.Bool => if ValueId.getBool id then True_ else False_
  | _ => Undef
  end.

(** Nonempty strings are true. *)
Definition EffectiveBooleanValueGetter_string
    (s : string) (ctx : EvaluationContext) : EffectiveBoolean :=
  if bool_decide (s = "") then False_ else True_.

Definition EffectiveBooleanValueGetter_IdOrString
    (s : IdOrString) (ctx : EvaluationContext) : EffectiveBoolean :=
  match s with
  | inl id => EffectiveBooleanValueGetter_Id id ctx
  | inr str => EffectiveBooleanValueGetter_string str ctx
  end.

(** The arguments [StringValueGetter] can be called with. *)
Class StringValueGetter (S : Type) : Type :=
  stringValue : S → EvaluationContext → option string.

(** Modelled from the spec: the overload on identifiers is only declared
    in the header: "identifier → resolved string form (domain-specific
    resolution) or none if not string-convertible". *)
#[global] Instance StringValueGetter_Id : StringValueGetter Id :=
  λ id ctx, idToString (_qec_index ctx) id.

#[global] Instance StringValueGetter_string : StringValueGetter string :=
  λ s ctx,
    if bool_decide (2 ≤ String.length s)%nat && starts_with quote s
       && ends_with quote s
    then Some (String.substring 1 (String.length s - 2) s)
    else Some s.

#[global] Instance StringValueGetter_IdOrString : StringValueGetter IdOrString :=
  λ s ctx,
    match s with
    | inl id => stringValue id ctx
    | inr str => stringValue str ctx
    end.

(** What is visible of an [re2::RE2] object: the pattern it was built
    from and whether it parsed ([ok()]).  The constructor does not throw;
    with the option [RE2::Quiet] a pattern that does not parse is not
    logged either. *)
Record RE2 : Type := { pattern : string; ok : bool }.

Section Regex.
(** The parser of the regular-expression engine. *)
Variable re2Parses : string → bool.

Definition make_RE2 (s : string) : RE2 :=
  {| pattern := s; ok := re2Parses s |}.

(** The result is the [unique_ptr]: [None] is [nullptr]. *)
Definition RegexValueGetter {S} `{StringValueGetter S}
    (input : S) (ctx : EvaluationContext) : Outcome (option RE2) :=
  let str := stringValue input ctx in
  match str with
  | None => Returned None
  | Some s => Returned (Some (make_RE2 s))
  end.
End Regex.

Definition IsNumericValueGetter_Id (id : Id) (ctx : EvaluationContext) : Id :=
  let datatype := ValueId.getDatatype id in
  ValueId.makeFromBool
    (bool_decide (datatype = ValueId.Double)
     || bool_decide (datatype = ValueId.Int)).

Definition IsNumericValueGetter_string
    (s : string) (ctx : EvaluationContext) : Id :=
  ValueId.makeFromBool false.

End ValueGetters.

(** ** LiteralExpression *)

Module LiteralExpression.

(** [TripleComponent::Literal], as far as the expression uses it. *)
Record Literal : Type := { rawContent : string }.

(** The type [T] of [LiteralExpression<T>] with the stored [_value]: one
    constructor per instantiation ([VariableExpression], [IriExpression],
    [StringLiteralExpression], [IdExpression], [VectorIdExpression]). *)
Inductive Value : Type :=
| OfVariable (v : SparqlVariable)
| OfString (s : string)
| OfLiteral (l : Literal)
| OfValueId (id : Id)
| OfVector (v : list Id).

(** [cachedResult_]: [None] is the null pointer. *)
Abbreviation Cache := (option IdOrString).

(** What one call does to the world outside its own locals, in program
    order. *)
Inductive Effect : Type :=
| CacheLoad (seen : Cache)
| VocabLookup (s : string)
| CacheExchange (installed : IdOrString) (displaced : Cache)
| Deleted (v : IdOrString)
| CancellationCheck.

Record Run : Type :=
  { outcome : Outcome ExpressionResult;
    cacheAfter : Cache;
    effects : list Effect }.

Section WithBuild.
Context `{Build}.

(** [evaluateIfVariable].  The recursion follows renamings of the SELECT
    clause, which the function does not bound itself: [fuel] bounds the depth
    of the calls and [None] is "not done within [fuel] calls". *)
Fixpoint evaluateIfVariable (fuel : nat) (isInsideAggregate : bool)
    (context : EvaluationContext) (variable : SparqlVariable)
  : option (Outcome ExpressionResult) :=
  match fuel with
  | O => None
  | S fuel' =>
      let resultFromSameRow :=
        getResultFromPreviousAggregate context variable in
      let otherwise : Outcome ExpressionResult :=
        if bool_decide (variable ∈ _groupedVariables context)
           && negb isInsideAggregate
        then
          column ← getColumnIndexForVariable context variable;
          let table := _inputTable context in
          constantValue ← IdTable_at table (_beginIndex context) column;
          _ ← assert
                (range ← IdTable_range table (_beginIndex context)
                                       (_endIndex context);
                 Returned
                   (forallb
                      (λ row, bool_decide (row !!! column = constantValue))
                      range));
          Returned (IdResult constantValue)
        else Returned (VariableResult variable) in
      match resultFromSameRow with
      | Some result =>
          if negb (bool_decide (variable ∈ _groupedVariables context)) then
            match get_if_Variable result with
            | Some var =>
                evaluateIfVariable fuel' isInsideAggregate context var
            | None => Some (Returned result)
            end
          else Some otherwise
      | None => Some otherwise
      end
  end.

(** The lambda [getIdOrString] of [evaluate].  [cache] is the slot when it
    is loaded; [others] is what the other threads do to the slot between
    this load and this call's exchange (the identity when the node is
    evaluated by one thread). *)
Definition getIdOrString (context : EvaluationContext)
    (cache : Cache) (others : Cache → Cache) (s : string) : Run :=
  match cache with
  | Some ptr =>
      {| outcome := Returned (IdOrStringResult ptr);
         cacheAfter := cache;
         effects := [CacheLoad cache] |}
  | None =>
      let result : IdOrString :=
        match getId (_qec_index context) s with
        | Some id => inl id
        | None => inr s
        end in
      let displaced := others cache in
      {| outcome :=
           _ ← throwIfCancelled context;
           Returned (IdOrStringResult result);
         cacheAfter := Some result;
         effects :=
           [CacheLoad cache; VocabLookup s; CacheExchange result displaced;
            CancellationCheck]
           ++ match displaced with Some old => [Deleted old] | None => [] end |}
  end.

(** [evaluate].  Only the string and literal instantiations use the cache
    slot. *)
Definition evaluate (fuel : nat) (isInsideAggregate : bool) (_value : Value)
    (context : EvaluationContext) (cache : Cache) (others : Cache → Cache)
  : option Run :=
  match _value with
  | OfLiteral l => Some (getIdOrString context cache others (rawContent l))
  | OfString s => Some (getIdOrString context cache others s)
  | OfVariable v =>
      o ← evaluateIfVariable fuel isInsideAggregate context v;
      Some {| outcome := o; cacheAfter := cache; effects := [] |}
  | OfVector v =>
      Some {| outcome := Returned (VectorResult v); cacheAfter := cache;
              effects := [] |}
  | OfValueId id =>
      Some {| outcome := Returned (IdResult id); cacheAfter := cache;
              effects := [] |}
  end.

End WithBuild.

(** [getCacheKey] *)
Definition getCacheKey (_value : Value) (varColMap : VariableToColumnMap)
  : Outcome string :=
  match _value with
  | OfVariable v =>
      match varColMap !! v with
      | None =>
          Thrown (AdException ("Variable " +:+ name v +:+ " not found"))
      | Some info =>
          Returned ("#column_" +:+ pretty (columnIndex_ info) +:+ "#")
      end
  | OfString s => Returned s
  | OfValueId id =>
      Returned ("#valueId " +:+ pretty (ValueId.getBits id) +:+ "#")
  | OfLiteral l => Returned ("#literal: " +:+ rawContent l)
  | OfVector _ =>
      Thrown (AdException
                "Trying to get cache key for value that should not be cached.")
  end.

Definition isConstantExpression (_value : Value) : bool :=
  match _value with
  | OfVariable _ => false
  | _ => true
  end.

Definition getVariableOrNullopt (_value : Value) : option SparqlVariable :=
  match _value with
  | OfVariable v => Some v
  | _ => None
  end.

Definition getUnaggregatedVariables (_value : Value) : list SparqlVariable :=
  match _value with
  | OfVariable v => [v]
  | _ => []
  end.

(** The string that the string and literal instantiations hand to
    [getIdOrString]. *)
Definition constantText (_value : Value) : option string :=
  match _value with
  | OfString s => Some s
  | OfLiteral l => Some (rawContent l)
  | _ => None
  end.

(** [AliasChain context v n result]: [v] is not grouped and was bound by
    an earlier expression of the clause; [n] renamings [(?x AS ?y)] lead
    from [v] to a variable bound to [result], which is not a variable. *)
Inductive AliasChain (context : EvaluationContext)
  : SparqlVariable → nat → ExpressionResult → Prop :=
| chain_value v result :
    getResultFromPreviousAggregate context v = Some result →
    v ∉ _groupedVariables context →
    get_if_Variable result = None →
    AliasChain context v 0 result
| chain_renaming v w n result :
    getResultFromPreviousAggregate context v = Some (VariableResult w) →
    v ∉ _groupedVariables context →
    AliasChain context w n result →
    AliasChain context v (S n) result.

End LiteralExpression.

(** ** Example inputs *)

Module Examples.
Import ResultTable.

Definition int (i : Z) : Id := ValueId.makeFromInt i.

(** A two-column table that is still being computed. *)
Definition pendingTable : t :=
  Build 2 0 [] (Some {| arity := 2; elements := [] |}) [KB; KB] OTHER.

Definition latchSchedule : list Call :=
  [CallIsFinished; CallFinish; CallAwaitFinished; CallIsFinished].

(** Three rows of two columns, once in each representation. *)
Definition threeRows : list (list Id) :=
  [[int 1; int 10]; [int 2; int 20]; [int 3; int 30]].

Definition fixedTable : t :=
  Build 2 0 [] (Some {| arity := 2; elements := threeRows |}) [] FINISHED.

Definition varTable : t := Build 2 0 threeRows None [] FINISHED.

(** No rows in one column, once in each representation. *)
Definition emptyFixedTable : t :=
  Build 1 0 [] (Some {| arity := 1; elements := [] |}) [] FINISHED.

Definition emptyVarTable : t := Build 1 0 [] None [] FINISHED.

(** One row of six columns behind the fixed-size pointer. *)
Definition sixColumnTable : t :=
  Build 6 0 []
        (Some {| arity := 6;
                 elements := [[int 1; int 2; int 3; int 4; int 5; int 6]] |})
        [] FINISHED.

Definition x : SparqlVariable := mkVariable "?x".
Definition y : SparqlVariable := mkVariable "?y".
Definition g : SparqlVariable := mkVariable "?g".

Definition column3 : ColumnIndexAndTypeInfo :=
  {| columnIndex_ := 3; mightContainUndef_ := false |}.

(** An index that knows one IRI. *)
Definition smallIndex : Index :=
  {| getId := λ s, if bool_decide (s = "<Human>")
                   then Some (ValueId.makeFromVocabIndex 17) else None;
     idToString := λ _, None |}.

(** [(5 AS ?x) (?x AS ?y)]: [?y] renames [?x], [?x] is bound to 5. *)
Definition aliasContext : EvaluationContext :=
  {| _qec_index := smallIndex;
     _inputTable := {| numColumns := 0; rows := [] |};
     _beginIndex := 0; _endIndex := 0;
     _variableToColumnMap := ∅;
     _groupedVariables := ∅;
     _previousResultsFromSameGroup :=
       {[ y := VariableResult x; x := IdResult (int 5) ]};
     cancellationHandle_isCancelled := false |}.

(** [(?x AS ?x)] *)
Definition cyclicContext : EvaluationContext :=
  {| _qec_index := smallIndex;
     _inputTable := {| numColumns := 0; rows := [] |};
     _beginIndex := 0; _endIndex := 0;
     _variableToColumnMap := ∅;
     _groupedVariables := ∅;
     _previousResultsFromSameGroup := {[ x := VariableResult x ]};
     cancellationHandle_isCancelled := false |}.

(** Four rows; column 2 is the grouped variable [?g]. *)
Definition groupedContext (rows : list (list Id)) : EvaluationContext :=
  {| _qec_index := smallIndex;
     _inputTable := {| numColumns := 3; rows := rows |};
     _beginIndex := 0; _endIndex := 4;
     _variableToColumnMap :=
       {[ g := {| columnIndex_ := 2; mightContainUndef_ := false |} ]};
     _groupedVariables := {[ g ]};
     _previousResultsFromSameGroup := ∅;
     cancellationHandle_isCancelled := false |}.

Definition sevens : list (list Id) :=
  [[int 1; int 10; int 7]; [int 2; int 11; int 7];
   [int 3; int 12; int 7]; [int 4; int 13; int 7]].

Definition sevensAndEight : list (list Id) :=
  [[int 1; int 10; int 7]; [int 2; int 11; int 7];
   [int 3; int 12; int 8]; [int 4; int 13; int 7]].

(** A context whose cancellation signal has been triggered. *)
Definition cancelledContext : EvaluationContext :=
  {| _qec_index := smallIndex;
     _inputTable := {| numColumns := 0; rows := [] |};
     _beginIndex := 0; _endIndex := 0;
     _variableToColumnMap := ∅;
     _groupedVariables := ∅;
     _previousResultsFromSameGroup := ∅;
     cancellationHandle_isCancelled := true |}.

End Examples.

(** ** Further value getters *)

Module NumericGetters.

Local Open Scope Z_scope.

(** A [double] is kept as its IEEE-754 binary64 pattern, a 64-bit number.
    [std::isnan]: all eleven exponent bits are set and the mantissa is not
    zero. *)
Definition isnan (d : Z) : bool :=
  (Z.land (Z.shiftr d 52) 2047 =? 2047) && negb (Z.land d (Z.ones 52) =? 0).

(** [NumericValue = std::variant<NotNumeric, double, int64_t>] *)
Inductive NumericValue : Type :=
| NotNumeric
| DoubleValue (d : Z)
| IntValue (i : Z).

(** [makeNumericId<NanToUndef, T>], one definition per kind of [T] that the
    [if constexpr] chain tells apart. *)
Definition makeNumericId_integral (NanToUndef : bool) (t : Z) : Id :=
  ValueId.makeFromInt t.

Definition makeNumericId_floating (NanToUndef : bool) (t : Z) : Id :=
  if NanToUndef then
    if isnan t then ValueId.makeUndefined else ValueId.makeFromDoubleBits t
  else ValueId.makeFromDoubleBits t.

Definition makeNumericId_NotNumeric (NanToUndef : bool) : Id :=
  ValueId.makeUndefined.

(** The visiting lambda calls [makeNumericId(x)] without template arguments:
    the alternative is converted with the default [NanToUndef = false]. *)
Definition makeNumericId_NumericValue (NanToUndef : bool) (t : NumericValue)
  : Id :=
  match t with
  | NotNumeric => makeNumericId_NotNumeric false
  | DoubleValue d => makeNumericId_floating false d
  | IntValue i => makeNumericId_integral false i
  end.

Definition makeNumericId_Id (NanToUndef : bool) (t : Id) : Id := t.

Definition NumericValueGetter_string
    (s : string) (ctx : EvaluationContext) : NumericValue :=
  NotNumeric.

Definition IsValidValueGetter_string
    (s : string) (ctx : EvaluationContext) : bool :=
  true.

Section IdOverloads.
(** The overloads on identifiers are only declared in the header. *)
Variable NumericValueGetter_Id : Id → EvaluationContext → NumericValue.
Variable IsValidValueGetter_Id : Id → EvaluationContext → bool.

Definition NumericValueGetter_IdOrString
    (s : IdOrString) (ctx : EvaluationContext) : NumericValue :=
  match s with
  | inl id => NumericValueGetter_Id id ctx
  | inr str => NumericValueGetter_string str ctx
  end.

Definition IsValidValueGetter_IdOrString
    (s : IdOrString) (ctx : EvaluationContext) : bool :=
  match s with
  | inl id => IsValidValueGetter_Id id ctx
  | inr str => IsValidValueGetter_string str ctx
  end.
End IdOverloads.

(** [IsNumericValueGetter] on [IdOrString]; the other two overloads are
    [ValueGetters.IsNumericValueGetter_Id] and
    [ValueGetters.IsNumericValueGetter_string]. *)
Definition IsNumericValueGetter_IdOrString
    (s : IdOrString) (ctx : EvaluationContext) : Id :=
  match s with
  | inl id => ValueGetters.IsNumericValueGetter_Id id ctx
  | inr str => ValueGetters.IsNumericValueGetter_string str ctx
  end.

End NumericGetters.

Module KindGetters.

Definition isIriPrefix : string := "<".
Definition isBlankPrefix : string := "_:".
Definition isLiteralPrefix : string := String ValueGetters.quote "".

(** [IsSomethingValueGetter<isSomethingFunction, prefix>] on a string:
    [s.starts_with(prefix)] is [String.prefix prefix s]. *)
Definition IsSomethingValueGetter_string (prefix : string)
    (s : string) (ctx : EvaluationContext) : Id :=
  ValueId.makeFromBool (String.prefix prefix s).

Definition IsIriValueGetter_string := IsSomethingValueGetter_string isIriPrefix.
Definition IsBlankNodeValueGetter_string :=
  IsSomethingValueGetter_string isBlankPrefix.
Definition IsLiteralValueGetter_string :=
  IsSomethingValueGetter_string isLiteralPrefix.

(** [LiteralFromIdGetter] on a string. *)
Definition LiteralFromIdGetter_string
    (s : string) (ctx : EvaluationContext) : option string :=
  if bool_decide (2 ≤ String.length s)%nat
     && ValueGetters.starts_with ValueGetters.quote s
     && ValueGetters.ends_with ValueGetters.quote s
  then Some (String.substring 1 (String.length s - 2) s)
  else Some s.

End KindGetters.

(** ** Further example inputs *)

Module MoreExamples.
Import ResultTable Examples.

(** A finished table of two columns with declared result types. *)
Definition typedTable : t :=
  Build 2 0 [] (Some {| arity := 2; elements := threeRows |})
        [VERBATIM; TEXT] FINISHED.

(** A quiet NaN. *)
Definition quietNaN : Z := 0x7FF8000000000000%Z.

(** [(?x AS ?y) (?y AS ?x)] *)
Definition twoCycleContext : EvaluationContext :=
  {| _qec_index := smallIndex;
     _inputTable := {| numColumns := 0; rows := [] |};
     _beginIndex := 0; _endIndex := 0;
     _variableToColumnMap := ∅;
     _groupedVariables := ∅;
     _previousResultsFromSameGroup :=
       {[ y := VariableResult x; x := VariableResult y ]};
     cancellationHandle_isCancelled := false |}.

(** [(?x AS ?y)] with [?x] a column of the input. *)
Definition renamingContext : EvaluationContext :=
  {| _qec_index := smallIndex;
     _inputTable := {| numColumns := 1; rows := [[int 1]; [int 2]] |};
     _beginIndex := 0; _endIndex := 2;
     _variableToColumnMap :=
       {[ x := {| columnIndex_ := 0; mightContainUndef_ := false |} ]};
     _groupedVariables := ∅;
     _previousResultsFromSameGroup := {[ y := VariableResult x ]};
     cancellationHandle_isCancelled := false |}.

(** The range [[b, e)] of a table whose column 2 is the grouped [?g]. *)
Definition rangeContext (b e : nat) (rows : list (list Id))
  : EvaluationContext :=
  {| _qec_index := smallIndex;
     _inputTable := {| numColumns := 3; rows := rows |};
     _beginIndex := b; _endIndex := e;
     _variableToColumnMap :=
       {[ g := {| columnIndex_ := 2; mightContainUndef_ := false |} ]};
     _groupedVariables := {[ g ]};
     _previousResultsFromSameGroup := ∅;
     cancellationHandle_isCancelled := false |}.

(** The range [2, 2) of a table whose column 2 is the grouped [?g]. *)
Definition emptyRangeContext (rows : list (list Id)) : EvaluationContext :=
  {| _qec_index := smallIndex;
     _inputTable := {| numColumns := 3; rows := rows |};
     _beginIndex := 2; _endIndex := 2;
     _variableToColumnMap :=
       {[ g := {| columnIndex_ := 2; mightContainUndef_ := false |} ]};
     _groupedVariables := {[ g ]};
     _previousResultsFromSameGroup := ∅;
     cancellationHandle_isCancelled := false |}.

(** The number of renamings that lead away from a variable of
    [aliasContext]. *)
Definition aliasRank (v : SparqlVariable) : nat :=
  if decide (v = y) then 1 else 0.

(** [?x] and [?y] in the same column, [?g] in another. *)
Definition threeVariables : VariableToColumnMap :=
  {[ x := column3; y := column3;
     g := {| columnIndex_ := 4; mightContainUndef_ := true |} ]}.

End MoreExamples.

(** * Properties *)

(** ** The completion latch *)

Section Latch.
Import ResultTable Examples.

Lemma finish_finished (r : t) : isFinished (finish r) = true.
Proof. reflexivity. Qed.

Lemma finish_fixpoint (r : t) : isFinished r = true → finish r = r.
Proof.
  destruct r as [n s v f ty st]; unfold isFinished, finish, setStatus; simpl.
  intros Hst%bool_decide_eq_true. by subst.
Qed.

Lemma perform_finished (c : Call) (r r' : t) (e : Event) :
  isFinished r = true → perform c r = Some (e, r') →
  r' = r ∧ e ≠ IsFinishedReturned false.
Proof.
  intros Hfin Hstep. destruct c; simpl in Hstep.
  - injection Hstep as <- <-. split; [by apply finish_fixpoint | done].
  - injection Hstep as <- <-. rewrite Hfin. split; [done | discriminate].
  - destruct (awaitFinished r); [| discriminate].
    injection Hstep as <- <-. split; [done | discriminate].
Qed.

Lemma steps_finished (r r' : t) (es : list Event) :
  isFinished r = true → steps r es r' →
  r' = r ∧ (IsFinishedReturned false ∉ es).
Proof.
  intros Hfin Hsteps. induction Hsteps as [r | c r e r1 es r2 Hc Hs IH].
  - split; [done | apply not_elem_of_nil].
  - destruct (perform_finished c r r1 e Hfin Hc) as [-> Hne].
    destruct (IH Hfin) as [-> Hnot]. split; [done |].
    intros [Heq | Hin]%elem_of_cons; [by symmetry in Heq | done].
Qed.

Lemma run_steps (cs : list Call) (r : t) :
  steps r (run cs r).1 (run cs r).2.
Proof.
  revert r; induction cs as [| c cs IH]; intros r; simpl; [constructor |].
  destruct (perform c r) as [[e r'] |] eqn:Hc; [| apply IH].
  specialize (IH r'). destruct (run cs r') as [es r''].
  simpl in *. by econstructor.
Qed.

Lemma perform_finished_returns (c : Call) (r : t) :
  isFinished r = true → ∃ e, perform c r = Some (e, r).
Proof.
  intros Hfin. destruct c; simpl.
  - rewrite finish_fixpoint by done. by eexists.
  - by eexists.
  - unfold awaitFinished. unfold isFinished in Hfin. rewrite Hfin. by eexists.
Qed.

(** C1.  After [finish()] has returned, the table is a fixed point of every
    further [finish()], [isFinished()] and [awaitFinished()], in whatever
    order threads run them: the status stays [FINISHED], no [isFinished()]
    returns false, a second [finish()] returns normally and changes
    nothing, and no call blocks. *)
Theorem completion_status_is_a_latch (r r' : t) (es : list Event) :
  steps (finish r) es r' →
  isFinished r' = true
  ∧ r' = finish r
  ∧ (IsFinishedReturned false ∉ es)
  ∧ perform CallFinish r' = Some (FinishReturned, r')
  ∧ (∀ c, ∃ e, perform c r' = Some (e, r')).
Proof.
  intros Hsteps.
  destruct (steps_finished _ _ _ (finish_finished r) Hsteps) as [-> Hnot].
  split_and!; try done.
  intros c. by apply perform_finished_returns.
Qed.

Lemma completion_status_is_a_latch_witness :
  steps (finish pendingTable) (run latchSchedule (finish pendingTable)).1
        (run latchSchedule (finish pendingTable)).2
  ∧ isFinished (run latchSchedule (finish pendingTable)).2 = true
  ∧ (IsFinishedReturned false ∉ (run latchSchedule (finish pendingTable)).1).
Proof.
  pose proof (completion_status_is_a_latch pendingTable _ _
                (run_steps latchSchedule (finish pendingTable))) as H.
  split; [apply run_steps |]. split; [apply H | apply H].
Defined.

(** C9.  Move construction hands the five swapped members, the row storage
    and the status among them, to the new table and leaves the source with
    the values of the initialiser list: no rows, a null pointer and the
    status [OTHER].  So the new table reports what the source reported, and
    the source reports unfinished, also when it was finished before. *)
Theorem move_construction_transfers_status (source : t) :
  let '(target, source') := moveConstruct source in
  isFinished target = isFinished source
  ∧ _varSizeData target = _varSizeData source
  ∧ _fixedSizeData target = _fixedSizeData source
  ∧ _nofColumns target = _nofColumns source
  ∧ isFinished source' = false
  ∧ _varSizeData source' = []
  ∧ _fixedSizeData source' = None
  ∧ isFinished (moveConstruct (finish source)).2 = false
  ∧ isFinished (moveConstruct (finish source)).1 = true.
Proof. simpl. by split_and!. Qed.

End Latch.

(** ** Materialising the rows *)

Section GetDataAsVarSize.
Import ResultTable Examples.

Lemma foldl_emplace (row : nat → list Id) (idx : list nat) (res : list (list Id)) :
  foldl (λ res i, res ++ [row i]) res idx = res ++ map row idx.
Proof.
  revert res; induction idx as [| i idx IH]; intros res; simpl.
  - by rewrite app_nil_r.
  - rewrite IH. by rewrite <- app_assoc.
Qed.

Lemma emplaceAll_map (row : nat → list Id) (size : nat) :
  emplaceAll row size = map row (seq 0 size).
Proof. unfold emplaceAll. by rewrite foldl_emplace. Qed.

(** Reading every index of a vector in turn visits its elements in order. *)
Lemma map_index_seq {A B} `{Inhabited A} (g : A → B) (data : list A) :
  map (λ i, g (data !!! i)) (seq 0 (length data)) = map g data.
Proof.
  induction data as [| x data IH]; [done |].
  simpl. f_equal. rewrite <- IH, <- fmap_S_seq.
  rewrite <- list_fmap_compose. done.
Qed.

Lemma emplaceAll_rows (mk : list Id → list Id) (data : list (list Id)) :
  Forall (λ row, mk row = row) data →
  emplaceAll (λ i, mk (data !!! i)) (length data) = data.
Proof.
  intros Hmk. rewrite emplaceAll_map, (map_index_seq mk data).
  induction Hmk as [| row data Hrow _ IH]; simpl; [done |].
  by rewrite Hrow, IH.
Qed.

Lemma getDataAsVarSize_var (r : t) :
  _varSizeData r ≠ [] → getDataAsVarSize r = Returned (_varSizeData r).
Proof.
  intros Hne. unfold getDataAsVarSize.
  rewrite bool_decide_eq_true_2; [done |].
  destruct (_varSizeData r); [done | simpl; lia].
Qed.

(** A row of the length that the cast assumes is rebuilt from its cells. *)
Ltac rebuilt_rows Hrows :=
  eapply Forall_impl; [exact Hrows |];
  let row := fresh "row" in
  let Hlen := fresh "Hlen" in
  intros row Hlen;
  repeat (destruct row as [| ? row]; simpl in Hlen; try discriminate Hlen);
  reflexivity.

Lemma getDataAsVarSize_fixed (n : nat) (data : list (list Id)) (r : t) :
  1 ≤ n ≤ 5 →
  Forall (λ row, length row = n) data →
  _nofColumns r = n → _varSizeData r = [] →
  _fixedSizeData r = Some {| arity := n; elements := data |} →
  getDataAsVarSize r = Returned data.
Proof.
  intros Hn Hrows Hcols Hvar Hfix. unfold getDataAsVarSize.
  rewrite Hvar, Hfix, Hcols. simpl.
  assert (n = 1 ∨ n = 2 ∨ n = 3 ∨ n = 4 ∨ n = 5) as Hcases by lia.
  destruct Hcases as [-> | [-> | [-> | [-> | ->]]]]; simpl; f_equal;
    unfold cell.
  - apply (emplaceAll_rows (λ row, [row !!! 0])). rebuilt_rows Hrows.
  - apply (emplaceAll_rows (λ row, [row !!! 0; row !!! 1])).
    rebuilt_rows Hrows.
  - apply (emplaceAll_rows (λ row, [row !!! 0; row !!! 1; row !!! 2])).
    rebuilt_rows Hrows.
  - apply (emplaceAll_rows
             (λ row, [row !!! 0; row !!! 1; row !!! 2; row !!! 3])).
    rebuilt_rows Hrows.
  - apply (emplaceAll_rows
             (λ row, [row !!! 0; row !!! 1; row !!! 2; row !!! 3; row !!! 4])).
    rebuilt_rows Hrows.
Qed.

(** C3, as the code has it.  A fixed-width table of arity 1 to 5 and a
    variable-width table with the same rows give the same rows, the ones
    they hold, when there is at least one row or the column count of the
    variable-width table is not one of 1 to 5; a table with rows in
    [_varSizeData] returns exactly those.  (A table is found to be
    variable-width by [_varSizeData.size() > 0] alone.) *)
Theorem getDataAsVarSize_same_rows
    (n : nat) (rows : list (list Id)) (fixed var : t) :
  1 ≤ n ≤ 5 →
  holdsFixed fixed n rows →
  holdsVariable var rows →
  rows ≠ [] ∨ ¬ (1 ≤ _nofColumns var ≤ 5) →
  getDataAsVarSize fixed = Returned rows
  ∧ getDataAsVarSize var = Returned rows
  ∧ (rows ≠ [] → getDataAsVarSize var = Returned (_varSizeData var)).
Proof.
  intros Hn (Hcols & Hvar & Hfix & Hrows) (Hnull & Hdata & _) Hcase.
  split; [by apply (getDataAsVarSize_fixed n) |].
  split.
  - destruct (decide (rows = [])) as [-> | Hne].
    + destruct Hcase as [? | Hout]; [done |].
      unfold getDataAsVarSize. rewrite Hdata. simpl.
      repeat (case_decide; [lia |]). done.
    + rewrite <- Hdata. apply getDataAsVarSize_var. by rewrite Hdata.
  - intros Hne. apply getDataAsVarSize_var. by rewrite Hdata.
Qed.

Lemma getDataAsVarSize_same_rows_witness :
  holdsFixed fixedTable 2 threeRows
  ∧ holdsVariable varTable threeRows
  ∧ getDataAsVarSize fixedTable = Returned threeRows
  ∧ getDataAsVarSize varTable = Returned threeRows.
Proof.
  assert (holdsFixed fixedTable 2 threeRows) as Hf.
  { repeat split. repeat constructor. }
  assert (holdsVariable varTable threeRows) as Hv.
  { repeat split. repeat constructor. }
  split; [exact Hf |]. split; [exact Hv |].
  pose proof (getDataAsVarSize_same_rows 2 threeRows fixedTable varTable
                ltac:(lia) Hf Hv ltac:(by left)) as (H1 & H2 & _).
  by split.
Defined.

(** C3 as it is written fails for a table without rows: the one-column
    variable-width table is read through its null fixed-size pointer, the
    fixed-width one gives the empty sequence. *)
Lemma getDataAsVarSize_empty_variable_width :
  ¬ (∀ (n : nat) (rows : list (list Id)) (fixed var : t),
       1 ≤ n ≤ 5 → holdsFixed fixed n rows → holdsVariable var rows →
       getDataAsVarSize fixed = getDataAsVarSize var).
Proof.
  intros Hclaim.
  specialize (Hclaim 1 [] emptyFixedTable emptyVarTable).
  assert (getDataAsVarSize emptyFixedTable = Returned []) as Hf by reflexivity.
  assert (getDataAsVarSize emptyVarTable = Crashed UndefinedBehaviour) as Hv
    by reflexivity.
  rewrite Hf, Hv in Hclaim. discriminate Hclaim.
  - lia.
  - by repeat split.
  - by repeat split.
Qed.

(** C4, as the code has it.  When the column count is not one of 1 to 5
    and [_varSizeData] holds no rows, the call returns normally with no
    rows: the fixed-size pointer is not read, whatever it points to. *)
Theorem getDataAsVarSize_unsupported_arity (r : t) :
  _varSizeData r = [] →
  ¬ (1 ≤ _nofColumns r ≤ 5) →
  getDataAsVarSize r = Returned [].
Proof.
  intros Hvar Hout. unfold getDataAsVarSize. rewrite Hvar. simpl.
  repeat (case_decide; [lia |]). done.
Qed.

Lemma getDataAsVarSize_unsupported_arity_witness :
  holdsFixed sixColumnTable 6 [[int 1; int 2; int 3; int 4; int 5; int 6]]
  ∧ getDataAsVarSize sixColumnTable = Returned [].
Proof.
  split; [repeat split; repeat constructor |].
  apply (getDataAsVarSize_unsupported_arity sixColumnTable);
    [reflexivity | simpl; lia].
Defined.

(** C4 as it is written fails: six columns behind the fixed-size pointer
    are not an error. *)
Lemma getDataAsVarSize_six_columns_returns :
  ¬ (∀ (r : t) (n : nat) (rows : list (list Id)),
       holdsFixed r n rows → ¬ (1 ≤ n ≤ 5) →
       isError (getDataAsVarSize r) = true).
Proof.
  intros Hclaim.
  specialize (Hclaim sixColumnTable 6
                [[int 1; int 2; int 3; int 4; int 5; int 6]]).
  assert (isError (getDataAsVarSize sixColumnTable) = false) as Hret
    by reflexivity.
  rewrite Hret in Hclaim. discriminate Hclaim.
  - repeat split. repeat constructor.
  - lia.
Qed.

End GetDataAsVarSize.

(** ** Value getters *)

Section Getters.
Import ValueGetters.

(** Two's complement on 60 bits: reducing modulo [2 ^ 60] and reading the
    top bit as the sign gives the integer back. *)
Lemma sign_extend_60 (i : Z) :
  (- 2 ^ 59 ≤ i < 2 ^ 59)%Z →
  (if Z.testbit (i mod 2 ^ 60) 59 then i mod 2 ^ 60 - 2 ^ 60
   else i mod 2 ^ 60)%Z = i.
Proof.
  intros Hi.
  destruct (Z.testbit (i mod 2 ^ 60) 59) eqn:Hbit;
    [apply Z.testbit_true in Hbit | apply Z.testbit_false in Hbit];
    try lia.
  all: change (2 ^ 60)%Z with 1152921504606846976%Z in *;
    change (2 ^ 59)%Z with 576460752303423488%Z in *.
  all: Z.div_mod_to_equations; lia.
Qed.

(** A signed integer that fits the data bits is read back unchanged. *)
Lemma getInt_makeFromInt (i : Z) :
  (- 2 ^ 59 ≤ i < 2 ^ 59)%Z → ValueId.getInt (ValueId.makeFromInt i) = i.
Proof.
  intros Hi. unfold ValueId.getInt, ValueId.makeFromInt.
  cbn [ValueId.dataBits].
  unfold ValueId.dataMask, ValueId.numDataBits, ValueId.numDatatypeBits.
  change (64 - 4)%Z with 60%Z. change (60 - 1)%Z with 59%Z.
  rewrite !Z.land_ones by lia. rewrite Z.mod_mod by lia.
  by apply sign_extend_60.
Qed.

Lemma EffectiveBooleanValueGetter_int (i : Z) (ctx : EvaluationContext) :
  (- 2 ^ 59 ≤ i < 2 ^ 59)%Z →
  EffectiveBooleanValueGetter_Id (ValueId.makeFromInt i) ctx
  = if (i =? 0)%Z then False_ else True_.
Proof.
  intros Hi. unfold EffectiveBooleanValueGetter_Id.
  by rewrite getInt_makeFromInt.
Qed.

(** C8.  The effective boolean value of the empty string is False and of
    every string with at least one character True; of the integer
    identifier 0 False, of the integer identifier 3 True and of the
    undefined identifier Undef; the overload on [IdOrString] gives the
    value of the alternative it holds. *)
Theorem effective_boolean_value
    (ctx : EvaluationContext) (c : Ascii.ascii) (rest : string) :
  EffectiveBooleanValueGetter_string "" ctx = False_
  ∧ EffectiveBooleanValueGetter_string (String c rest) ctx = True_
  ∧ EffectiveBooleanValueGetter_Id (ValueId.makeFromInt 0) ctx = False_
  ∧ EffectiveBooleanValueGetter_Id (ValueId.makeFromInt 3) ctx = True_
  ∧ EffectiveBooleanValueGetter_Id ValueId.makeUndefined ctx = Undef
  ∧ EffectiveBooleanValueGetter_IdOrString (inr "") ctx = False_
  ∧ EffectiveBooleanValueGetter_IdOrString (inr (String c rest)) ctx = True_
  ∧ EffectiveBooleanValueGetter_IdOrString (inl (ValueId.makeFromInt 0)) ctx
    = False_
  ∧ EffectiveBooleanValueGetter_IdOrString (inl (ValueId.makeFromInt 3)) ctx
    = True_
  ∧ EffectiveBooleanValueGetter_IdOrString (inl ValueId.makeUndefined) ctx
    = Undef.
Proof.
  assert (EffectiveBooleanValueGetter_Id (ValueId.makeFromInt 0) ctx = False_)
    as H0 by (by rewrite EffectiveBooleanValueGetter_int).
  assert (EffectiveBooleanValueGetter_Id (ValueId.makeFromInt 3) ctx = True_)
    as H3 by (by rewrite EffectiveBooleanValueGetter_int).
  split_and!; done.
Qed.

(** The string getter strips one pair of enclosing quotes and leaves other
    strings as they are. *)
Lemma StringValueGetter_string_quoted (ctx : EvaluationContext) :
  stringValue (String quote ("abc" +:+ String quote "")) ctx = Some "abc"
  ∧ stringValue "<abc>" ctx = Some "<abc>"
  ∧ stringValue (String quote "") ctx = Some (String quote "").
Proof. by split_and!. Qed.

Section WithRegexEngine.
Variable re2Parses : string → bool.
Context {S : Type} `{StringValueGetter S}.

Lemma RegexValueGetter_returns (input : S) (ctx : EvaluationContext) :
  RegexValueGetter re2Parses input ctx
  = Returned (make_RE2 re2Parses <$> stringValue input ctx).
Proof. unfold RegexValueGetter. by destruct (stringValue input ctx). Qed.

(** C6, as the code has it.  The regex getter returns the null pointer
    exactly when the string getter gives no string.  Otherwise it
    returns a regex object built from that string, also when the string
    is not a valid pattern: the object then has [ok() == false]; the
    getter itself never fails. *)
Theorem RegexValueGetter_null_iff_no_string
    (input : S) (ctx : EvaluationContext) :
  (RegexValueGetter re2Parses input ctx = Returned None
   ↔ stringValue input ctx = None)
  ∧ isError (RegexValueGetter re2Parses input ctx) = false
  ∧ (∀ s, stringValue input ctx = Some s →
          RegexValueGetter re2Parses input ctx
          = Returned (Some {| pattern := s; ok := re2Parses s |})).
Proof.
  rewrite RegexValueGetter_returns.
  destruct (stringValue input ctx) as [s |]; simpl.
  - split_and!; [split; discriminate | done |].
    intros s' [= <-]. done.
  - split_and!; [done | done | discriminate].
Qed.
End WithRegexEngine.

(** C6 as it is written fails: with an engine that rejects the pattern
    [(], the getter returns an object and no error. *)
Lemma RegexValueGetter_invalid_pattern_returns :
  ¬ (∀ (re2Parses : string → bool) (input : string)
       (ctx : EvaluationContext) (s : string),
       stringValue input ctx = Some s → re2Parses s = false →
       isError (RegexValueGetter re2Parses input ctx) = true).
Proof.
  intros Hclaim.
  pose (ctx := {| _qec_index := {| getId := λ _, None; idToString := λ _, None |};
                  _inputTable := {| numColumns := 0; rows := [] |};
                  _beginIndex := 0; _endIndex := 0;
                  _variableToColumnMap := ∅; _groupedVariables := ∅;
                  _previousResultsFromSameGroup := ∅;
                  cancellationHandle_isCancelled := false |}).
  specialize (Hclaim (λ s, negb (bool_decide (s = "("))) "(" ctx "("
                eq_refl eq_refl).
  discriminate Hclaim.
Qed.

End Getters.

(** ** Literal expressions *)

Section CacheKey.
Import LiteralExpression Examples.

(** C7.  [getCacheKey] throws for a variable that is not in the column
    mapping and for every materialised vector; for the other expressions it
    returns: the string itself for a string constant, the bit pattern in
    decimal between [#valueId ] and [#] for an identifier, the raw content
    after [#literal: ] for a literal, and the column index between
    [#column_] and [#] for a variable of the mapping. *)
Theorem getCacheKey_errors_and_keys
    (varColMap : VariableToColumnMap) (v : SparqlVariable) (vec : list Id)
    (s : string) (id : Id) (l : Literal) :
  (varColMap !! v = None →
   getCacheKey (OfVariable v) varColMap
   = Thrown (AdException ("Variable " +:+ name v +:+ " not found")))
  ∧ getCacheKey (OfVector vec) varColMap
    = Thrown (AdException
                "Trying to get cache key for value that should not be cached.")
  ∧ getCacheKey (OfString s) varColMap = Returned s
  ∧ getCacheKey (OfValueId id) varColMap
    = Returned ("#valueId " +:+ pretty (ValueId.getBits id) +:+ "#")
  ∧ getCacheKey (OfLiteral l) varColMap
    = Returned ("#literal: " +:+ rawContent l)
  ∧ (∀ info, varColMap !! v = Some info →
             getCacheKey (OfVariable v) varColMap
             = Returned ("#column_" +:+ pretty (columnIndex_ info) +:+ "#")).
Proof.
  split_and!; try done.
  - intros Hnone. simpl. by rewrite Hnone.
  - intros info Hsome. simpl. by rewrite Hsome.
Qed.

Lemma getCacheKey_errors_and_keys_witness :
  getCacheKey (OfVariable x) {[ y := column3 ]}
  = Thrown (AdException "Variable ?x not found")
  ∧ getCacheKey (OfVariable y) {[ y := column3 ]} = Returned "#column_3#"
  ∧ getCacheKey (OfValueId (int 5)) {[ y := column3 ]}
    = Returned "#valueId 2305843009213693957#".
Proof.
  pose proof (getCacheKey_errors_and_keys {[ y := column3 ]} x [] ""
                (int 5) {| rawContent := "" |}) as (Hx & _ & _ & Hid & _).
  pose proof (getCacheKey_errors_and_keys {[ y := column3 ]} y [] ""
                (int 5) {| rawContent := "" |}) as (_ & _ & _ & _ & _ & Hy).
  split; [apply Hx; reflexivity |].
  split; [apply (Hy column3); reflexivity | exact Hid].
Defined.

End CacheKey.

Section VariableResolution.
Import LiteralExpression Examples.

Context `{Build} (isInsideAggregate : bool) (context : EvaluationContext).

Lemma evaluateIfVariable_renaming (fuel : nat) (v w : SparqlVariable) :
  getResultFromPreviousAggregate context v = Some (VariableResult w) →
  v ∉ _groupedVariables context →
  evaluateIfVariable (S fuel) isInsideAggregate context v
  = evaluateIfVariable fuel isInsideAggregate context w.
Proof.
  intros Hprev Hgrouped. simpl. rewrite Hprev.
  by rewrite bool_decide_eq_false_2.
Qed.

Lemma evaluateIfVariable_value
    (fuel : nat) (v : SparqlVariable) (result : ExpressionResult) :
  getResultFromPreviousAggregate context v = Some result →
  v ∉ _groupedVariables context →
  get_if_Variable result = None →
  evaluateIfVariable (S fuel) isInsideAggregate context v
  = Some (Returned result).
Proof.
  intros Hprev Hgrouped Hnovar. simpl. rewrite Hprev.
  rewrite bool_decide_eq_false_2 by done. simpl. by rewrite Hnovar.
Qed.

(** More calls than needed do not change the result. *)
Lemma evaluateIfVariable_fuel_mono
    (fuel fuel' : nat) (v : SparqlVariable) (o : Outcome ExpressionResult) :
  fuel ≤ fuel' →
  evaluateIfVariable fuel isInsideAggregate context v = Some o →
  evaluateIfVariable fuel' isInsideAggregate context v = Some o.
Proof.
  revert fuel' v. induction fuel as [| fuel IH]; intros fuel' v Hle; [done |].
  destruct fuel' as [| fuel']; [lia |].
  cbn [evaluateIfVariable].
  destruct (getResultFromPreviousAggregate context v) as [result |]; [| done].
  destruct (negb (bool_decide (v ∈ _groupedVariables context))); [| done].
  destruct (get_if_Variable result) as [w |]; [| done].
  apply IH. lia.
Qed.

Lemma evaluateIfVariable_chain
    (v : SparqlVariable) (n : nat) (result : ExpressionResult) :
  AliasChain context v n result →
  ∀ fuel, n < fuel →
    evaluateIfVariable fuel isInsideAggregate context v
    = Some (Returned result).
Proof.
  induction 1 as [v result Hprev Hgrouped Hnovar
                 | v w n result Hprev Hgrouped _ IH];
    intros [| fuel] Hfuel; try lia.
  - by apply evaluateIfVariable_value.
  - rewrite (evaluateIfVariable_renaming fuel v w) by done.
    apply IH. lia.
Qed.

(** The calls end when the renamings are acyclic: a rank that decreases
    along every renaming bounds their number. *)
Lemma evaluateIfVariable_terminates (rank : SparqlVariable → nat) :
  (∀ v w, getResultFromPreviousAggregate context v = Some (VariableResult w) →
          v ∉ _groupedVariables context → rank w < rank v) →
  ∀ v, ∃ o, evaluateIfVariable (S (rank v)) isInsideAggregate context v
            = Some o.
Proof.
  intros Hrank.
  assert (∀ n v, rank v ≤ n →
                 ∃ o, evaluateIfVariable (S n) isInsideAggregate context v
                      = Some o) as Hbound.
  { induction n as [| n IH]; intros v Hle; cbn [evaluateIfVariable].
    - destruct (getResultFromPreviousAggregate context v) as [result |] eqn:Hprev;
        [| by eexists].
      destruct (decide (v ∈ _groupedVariables context)) as [Hin | Hnotin].
      + rewrite (bool_decide_eq_true_2 _ Hin). by eexists.
      + rewrite (bool_decide_eq_false_2 _ Hnotin). cbn [negb].
        destruct result as [| | w |]; try by eexists.
        specialize (Hrank v w Hprev Hnotin). lia.
    - destruct (getResultFromPreviousAggregate context v) as [result |] eqn:Hprev;
        [| by eexists].
      destruct (decide (v ∈ _groupedVariables context)) as [Hin | Hnotin].
      + rewrite (bool_decide_eq_true_2 _ Hin). by eexists.
      + rewrite (bool_decide_eq_false_2 _ Hnotin). cbn [negb].
        destruct result as [| | w |]; try by eexists.
        cbn [get_if_Variable]. apply IH.
        specialize (Hrank v w Hprev Hnotin). lia. }
  intros v. by apply Hbound.
Qed.

(** C5.  For a variable that is not grouped and was bound by an earlier
    expression of the clause: if that result is a variable, the call is
    the call on that variable; if it is not, the call returns it; hence
    a chain of [n] renamings that ends in a value is resolved to this
    value by any run of more than [n] calls. *)
Theorem evaluateIfVariable_follows_aliases (fuel : nat) (v : SparqlVariable) :
  v ∉ _groupedVariables context →
  (∀ w, getResultFromPreviousAggregate context v = Some (VariableResult w) →
        evaluateIfVariable (S fuel) isInsideAggregate context v
        = evaluateIfVariable fuel isInsideAggregate context w)
  ∧ (∀ result, getResultFromPreviousAggregate context v = Some result →
               get_if_Variable result = None →
               evaluateIfVariable (S fuel) isInsideAggregate context v
               = Some (Returned result))
  ∧ (∀ n result, AliasChain context v n result → n ≤ fuel →
                 evaluateIfVariable (S fuel) isInsideAggregate context v
                 = Some (Returned result)).
Proof.
  intros Hgrouped. split_and!.
  - intros w Hprev. by apply evaluateIfVariable_renaming.
  - intros result Hprev Hnovar. by apply evaluateIfVariable_value.
  - intros n result Hchain Hn.
    apply (evaluateIfVariable_chain v n); [done | lia].
Qed.

End VariableResolution.

Section AliasExample.
Import LiteralExpression Examples.

#[local] Existing Instance debugBuild.

(** A variable renamed to itself is never resolved, however many calls are
    allowed: the function relies on its caller for acyclic renamings. *)
Lemma evaluateIfVariable_cycle (fuel : nat) :
  evaluateIfVariable fuel false cyclicContext x = None.
Proof. induction fuel as [| fuel IH]; [done | exact IH]. Qed.

Lemma aliasContext_chain : AliasChain aliasContext y 1 (IdResult (int 5)).
Proof.
  apply (chain_renaming aliasContext y x); [reflexivity | set_solver |].
  apply chain_value; [reflexivity | set_solver | reflexivity].
Qed.

(** With [?y] an alias of [?x] and [?x] an alias of 5, [?y] is 5. *)
Lemma evaluateIfVariable_follows_aliases_witness :
  (y ∉ _groupedVariables aliasContext)
  ∧ evaluateIfVariable 2 false aliasContext y
    = Some (Returned (IdResult (int 5)))
  ∧ evaluateIfVariable 2 false aliasContext y
    = evaluateIfVariable 1 false aliasContext x.
Proof.
  assert (y ∉ _groupedVariables aliasContext) as Hy by set_solver.
  destruct (evaluateIfVariable_follows_aliases false aliasContext 1 y Hy)
    as (Hrec & _ & Hchain).
  split; [exact Hy |]. split.
  - apply (Hchain 1); [apply aliasContext_chain | lia].
  - apply Hrec. reflexivity.
Defined.

End AliasExample.

Section GroupedConstant.
Import LiteralExpression Examples MoreExamples.

Context `{Build}.

Lemma forallb_Forall_bool_decide {A} (P : A → Prop) `{∀ a, Decision (P a)}
    (l : list A) :
  forallb (λ a, bool_decide (P a)) l = true ↔ Forall P l.
Proof.
  induction l as [| a l IH]; simpl.
  - split; [constructor | done].
  - rewrite andb_true_iff, bool_decide_eq_true, IH, Forall_cons. done.
Qed.

(** The elements from index [b] up to index [e], by their indices. *)
Lemma Forall_take_drop {A} (P : A → Prop) (l : list A) (b e : nat) :
  Forall P (take (e - b) (drop b l))
  ↔ ∀ i a, b ≤ i < e → l !! i = Some a → P a.
Proof.
  rewrite Forall_lookup. split.
  - intros Hall i a Hi Ha. apply (Hall (i - b)).
    apply lookup_take_Some. split; [| lia].
    rewrite lookup_drop. by replace (b + (i - b)) with i by lia.
  - intros Hall j a [Ha Hj]%lookup_take_Some.
    rewrite lookup_drop in Ha. apply (Hall (b + j)); [lia | done].
Qed.

Lemma IdTable_at_Returned (table : IdTable) (row column : nat) (id : Id) :
  IdTable_at table row column = Returned id →
  ∃ r, rows table !! row = Some r ∧ r !! column = Some id.
Proof.
  unfold IdTable_at. destruct (rows table !! row) as [r |]; [| done].
  destruct (r !! column) as [id' |] eqn:Hid; [| done].
  intros [= <-]. by exists r.
Qed.

(** What the call is for a grouped variable outside an aggregate, once the
    column is found and the first row of the range is read. *)
Lemma evaluateIfVariable_grouped
    (fuel : nat) (context : EvaluationContext) (v : SparqlVariable)
    (info : ColumnIndexAndTypeInfo) (constantValue : Id) :
  v ∈ _groupedVariables context →
  _variableToColumnMap context !! v = Some info →
  IdTable_at (_inputTable context) (_beginIndex context) (columnIndex_ info)
  = Returned constantValue →
  evaluateIfVariable (S fuel) false context v
  = Some (_ ← assert
                (range ← IdTable_range (_inputTable context)
                                       (_beginIndex context)
                                       (_endIndex context);
                 Returned
                   (forallb
                      (λ row,
                         bool_decide
                           (row !!! columnIndex_ info = constantValue))
                      range));
          Returned (IdResult constantValue)).
Proof.
  intros Hgrouped Hcol Hat. cbn [evaluateIfVariable].
  rewrite (bool_decide_eq_true_2 _ Hgrouped). cbn [negb andb].
  unfold getColumnIndexForVariable. rewrite Hcol.
  cbn [mbind Outcome_bind bindOutcome]. rewrite Hat.
  by destruct (getResultFromPreviousAggregate context v).
Qed.

(** C2, as the code has it.  For a grouped variable outside an aggregate,
    with its column in the mapping, the row at [_beginIndex] in the table
    and [_beginIndex ≤ _endIndex] not past the end of the table: the call
    returns the identifier of that row and column as one constant
    identifier when every row with an index from [_beginIndex] up to, not
    including, [_endIndex] has it in that column.  When one of these rows
    has another identifier, the call stops at the failed [assert] in a
    build without [NDEBUG]; in a build with [NDEBUG] the rows are not
    compared and the call returns the identifier of the first row. *)
Theorem evaluateIfVariable_grouped_constant
    (fuel : nat) (context : EvaluationContext) (v : SparqlVariable)
    (info : ColumnIndexAndTypeInfo) (constantValue : Id) :
  v ∈ _groupedVariables context →
  _variableToColumnMap context !! v = Some info →
  IdTable_at (_inputTable context) (_beginIndex context) (columnIndex_ info)
  = Returned constantValue →
  _beginIndex context ≤ _endIndex context
                      ≤ length (rows (_inputTable context)) →
  ((∀ i row, _beginIndex context ≤ i < _endIndex context →
             rows (_inputTable context) !! i = Some row →
             row !!! columnIndex_ info = constantValue) →
   evaluateIfVariable (S fuel) false context v
   = Some (Returned (IdResult constantValue)))
  ∧ (NDEBUG = false →
     (∃ i row, _beginIndex context ≤ i < _endIndex context
               ∧ rows (_inputTable context) !! i = Some row
               ∧ row !!! columnIndex_ info ≠ constantValue) →
     evaluateIfVariable (S fuel) false context v
     = Some (Crashed AssertionFailure))
  ∧ (NDEBUG = true →
     evaluateIfVariable (S fuel) false context v
     = Some (Returned (IdResult constantValue))).
Proof.
  intros Hgrouped Hcol Hat Hrange.
  rewrite (evaluateIfVariable_grouped fuel context v info constantValue)
    by done.
  unfold IdTable_range. rewrite (bool_decide_eq_true_2 _ Hrange).
  cbn [mbind Outcome_bind bindOutcome].
  pose proof (forallb_Forall_bool_decide
                (λ row : list Id, row !!! columnIndex_ info = constantValue)
                (take (_endIndex context - _beginIndex context)
                      (drop (_beginIndex context)
                            (rows (_inputTable context))))) as Hreflect.
  rewrite Forall_take_drop in Hreflect.
  unfold assert. cbn [mbind Outcome_bind bindOutcome].
  split_and!.
  - intros Hall. apply Hreflect in Hall. rewrite Hall. by destruct NDEBUG.
  - intros -> (i & row & Hi & Hrow & Hdiffers).
    destruct (forallb _ _); [| done].
    exfalso. apply Hdiffers. by apply (proj1 Hreflect eq_refl i row).
  - by intros ->.
Qed.

End GroupedConstant.

Section GroupedConstantExamples.
Import LiteralExpression Examples MoreExamples.

(** Four rows with 7 in the grouped column give 7 in either build.  With 8
    in row 2, the build without [NDEBUG] stops on the range [[0, 4)] and
    returns 7 on the range [[0, 2)], which row 2 is not part of; the build
    with [NDEBUG] returns 7 on the range [[0, 4)]. *)
Lemma evaluateIfVariable_grouped_constant_witness :
  @evaluateIfVariable debugBuild 1 false (groupedContext sevens) g
  = Some (Returned (IdResult (int 7)))
  ∧ @evaluateIfVariable debugBuild 1 false (groupedContext sevensAndEight) g
    = Some (Crashed AssertionFailure)
  ∧ @evaluateIfVariable debugBuild 1 false (rangeContext 0 2 sevensAndEight) g
    = Some (Returned (IdResult (int 7)))
  ∧ @evaluateIfVariable releaseBuild 1 false (groupedContext sevensAndEight) g
    = Some (Returned (IdResult (int 7))).
Proof.
  assert (g ∈ ({[ g ]} : gset SparqlVariable)) as Hg by set_solver.
  assert (0 ≤ 4 ≤ 4) as H04 by lia. assert (0 ≤ 2 ≤ 4) as H02 by lia.
  destruct (@evaluateIfVariable_grouped_constant debugBuild 0
              (groupedContext sevens) g
              {| columnIndex_ := 2; mightContainUndef_ := false |} (int 7)
              Hg eq_refl eq_refl H04) as (Hsame & _ & _).
  destruct (@evaluateIfVariable_grouped_constant debugBuild 0
              (groupedContext sevensAndEight) g
              {| columnIndex_ := 2; mightContainUndef_ := false |} (int 7)
              Hg eq_refl eq_refl H04) as (_ & Hstop & _).
  destruct (@evaluateIfVariable_grouped_constant debugBuild 0
              (rangeContext 0 2 sevensAndEight) g
              {| columnIndex_ := 2; mightContainUndef_ := false |} (int 7)
              Hg eq_refl eq_refl H02) as (Hsame2 & _ & _).
  destruct (@evaluateIfVariable_grouped_constant releaseBuild 0
              (groupedContext sevensAndEight) g
              {| columnIndex_ := 2; mightContainUndef_ := false |} (int 7)
              Hg eq_refl eq_refl H04) as (_ & _ & Hrelease).
  split_and!.
  - apply Hsame. intros i row Hi Hrow.
    destruct i as [| [| [| [| i]]]]; simpl in Hi, Hrow; simplify_eq; try lia;
      reflexivity.
  - apply Hstop; [reflexivity |].
    exists 2, [int 3; int 12; int 8].
    split; [simpl; lia |]. split; [reflexivity | discriminate].
  - apply Hsame2. intros i row Hi Hrow.
    destruct i as [| [| i]]; simpl in Hi, Hrow; simplify_eq; try lia;
      reflexivity.
  - apply Hrelease. reflexivity.
Defined.

(** C2 as it is written fails in a build with [NDEBUG]: the row with 8 is
    not noticed and the call returns 7. *)
Lemma evaluateIfVariable_differing_row_unnoticed :
  ¬ (∀ (build : Build) (fuel : nat) (context : EvaluationContext)
       (v : SparqlVariable) (info : ColumnIndexAndTypeInfo)
       (constantValue : Id),
       v ∈ _groupedVariables context →
       _variableToColumnMap context !! v = Some info →
       IdTable_at (_inputTable context) (_beginIndex context)
                  (columnIndex_ info)
       = Returned constantValue →
       _beginIndex context ≤ _endIndex context
                           ≤ length (rows (_inputTable context)) →
       (∃ i row, _beginIndex context ≤ i < _endIndex context
                 ∧ rows (_inputTable context) !! i = Some row
                 ∧ row !!! columnIndex_ info ≠ constantValue) →
       ∀ result, @evaluateIfVariable build (S fuel) false context v
                 ≠ Some (Returned result)).
Proof.
  intros Hclaim.
  apply (Hclaim releaseBuild 0 (groupedContext sevensAndEight) g
           {| columnIndex_ := 2; mightContainUndef_ := false |} (int 7)
           ltac:(set_solver) eq_refl eq_refl ltac:(simpl; lia)
           ltac:(exists 2, [int 3; int 12; int 8];
                 split; [simpl; lia | split; [reflexivity | discriminate]])
           (IdResult (int 7))).
  reflexivity.
Qed.

End GroupedConstantExamples.

Section CachedEvaluation.
Import LiteralExpression Examples.

Context `{Build}.

(** C10.  For a string or literal constant: with a value in the cache
    slot, [evaluate] returns that value after the load alone, whatever the
    cancellation signal says; with an empty slot it looks the string up,
    installs the computed value, then checks for cancellation, and returns
    the computed value, or throws when cancelled, whatever another thread
    had put into the slot in between; that occupant is deleted. *)
Theorem evaluate_checks_cancellation_when_uncached
    (fuel : nat) (isInsideAggregate : bool) (_value : Value)
    (context : EvaluationContext) (others : Cache → Cache) (s : string) :
  constantText _value = Some s →
  let computed : IdOrString :=
    match getId (_qec_index context) s with
    | Some id => inl id
    | None => inr s
    end in
  (∀ cached,
     evaluate fuel isInsideAggregate _value context (Some cached) others
     = Some {| outcome := Returned (IdOrStringResult cached);
               cacheAfter := Some cached;
               effects := [CacheLoad (Some cached)] |})
  ∧ evaluate fuel isInsideAggregate _value context None others
    = Some {| outcome :=
                if cancellationHandle_isCancelled context
                then Thrown CancellationException
                else Returned (IdOrStringResult computed);
              cacheAfter := Some computed;
              effects :=
                [CacheLoad None; VocabLookup s;
                 CacheExchange computed (others None); CancellationCheck]
                ++ match others None with
                   | Some old => [Deleted old]
                   | None => []
                   end |}.
Proof.
  intros Htext computed.
  assert (∀ cache,
            evaluate fuel isInsideAggregate _value context cache others
            = Some (getIdOrString context cache others s)) as Heval.
  { intros cache. destruct _value; simpl in Htext; try discriminate;
      injection Htext as <-; reflexivity. }
  split.
  - intros cached. by rewrite Heval.
  - rewrite Heval. unfold getIdOrString, throwIfCancelled. fold computed.
    by destruct (cancellationHandle_isCancelled context).
Qed.

End CachedEvaluation.

Section CachedEvaluationExample.
Import LiteralExpression Examples.

#[local] Existing Instance debugBuild.

(** A cancelled evaluation of [<Human>]: the cached node returns, the
    uncached one throws after it has installed the identifier, and deletes
    the string another thread had installed meanwhile. *)
Lemma evaluate_checks_cancellation_when_uncached_witness :
  evaluate 0 false (OfString "<Human>") cancelledContext
           (Some (inr "<Human>")) id
  = Some {| outcome := Returned (IdOrStringResult (inr "<Human>"));
            cacheAfter := Some (inr "<Human>");
            effects := [CacheLoad (Some (inr "<Human>"))] |}
  ∧ evaluate 0 false (OfString "<Human>") cancelledContext None
             (λ _, Some (inr "other"))
    = Some {| outcome := Thrown CancellationException;
              cacheAfter := Some (inl (ValueId.makeFromVocabIndex 17));
              effects :=
                [CacheLoad None; VocabLookup "<Human>";
                 CacheExchange (inl (ValueId.makeFromVocabIndex 17))
                               (Some (inr "other"));
                 CancellationCheck; Deleted (inr "other")] |}.
Proof.
  split.
  - apply (evaluate_checks_cancellation_when_uncached 0 false
             (OfString "<Human>") cancelledContext id "<Human>" eq_refl).
  - apply (evaluate_checks_cancellation_when_uncached 0 false
             (OfString "<Human>") cancelledContext
             (λ _, Some (inr "other")) "<Human>" eq_refl).
Defined.

End CachedEvaluationExample.

(** * Further properties *)

(** ** The latch on a table that is not finished yet *)

Section LatchTraces.
Import ResultTable Examples MoreExamples.

Lemma perform_status (c : Call) (r r' : t) (e : Event) :
  perform c r = Some (e, r') →
  (e = FinishReturned ∧ r' = finish r)
  ∨ (e ≠ FinishReturned ∧ r' = r
     ∧ (e = IsFinishedReturned (isFinished r)
        ∨ (e = AwaitFinishedReturned ∧ isFinished r = true))).
Proof.
  destruct c; simpl; intros Hstep.
  - injection Hstep as <- <-. by left.
  - injection Hstep as <- <-. right. split_and!; [done | done | by left].
  - unfold awaitFinished in Hstep. unfold isFinished.
    destruct (bool_decide (_status r = FINISHED)); [| discriminate].
    injection Hstep as <- <-. right. split_and!; [done | done | by right].
Qed.

(** X1.  After any sequence of [finish()], [isFinished()] and
    [awaitFinished()] calls the table is finished exactly when it was
    finished before or one of the calls was [finish()]. *)
Theorem finished_iff_finish_called (r r' : t) (es : list Event) :
  steps r es r' →
  isFinished r' = true ↔ isFinished r = true ∨ FinishReturned ∈ es.
Proof.
  induction 1 as [r | c r e r1 es r2 Hc Hs IH].
  - split; [by left | intros [? | Hin]; [done | by apply elem_of_nil in Hin]].
  - rewrite IH, elem_of_cons.
    destruct (perform_status c r r1 e Hc) as [[-> ->] | (Hne & -> & _)].
    + split; [intros _; right; by left | intros _; by left].
    + split; [intros [? | ?]; auto | intros [? | [? | ?]]; auto; congruence].
Qed.

Lemma finished_iff_finish_called_witness :
  isFinished (run latchSchedule pendingTable).2 = true
  ↔ isFinished pendingTable = true
    ∨ FinishReturned ∈ (run latchSchedule pendingTable).1.
Proof.
  apply (finished_iff_finish_called pendingTable). apply run_steps.
Defined.

(** X2.  The three calls change nothing but the status: the table after
    them is the table before with the status they left, and it
    materialises to the same rows. *)
Theorem latch_calls_keep_rows (r r' : t) (es : list Event) :
  steps r es r' →
  r' = setStatus (_status r') r
  ∧ getDataAsVarSize r' = getDataAsVarSize r
  ∧ (∀ col, getResultType r' col = getResultType r col).
Proof.
  intros Hsteps.
  assert (r' = setStatus (_status r') r) as Heq.
  { induction Hsteps as [r | c r e r1 es r2 Hc Hs IH].
    - by destruct r.
    - rewrite IH at 1.
      destruct (perform_status c r r1 e Hc) as [[_ ->] | (_ & -> & _)]; done. }
  split; [exact Heq |]. rewrite Heq. done.
Qed.

Lemma latch_calls_keep_rows_witness :
  getDataAsVarSize (run latchSchedule pendingTable).2
  = getDataAsVarSize pendingTable.
Proof.
  apply (latch_calls_keep_rows pendingTable _
           (run latchSchedule pendingTable).1).
  apply run_steps.
Defined.

(** X3.  On a table that is not finished, no [awaitFinished()] returns and
    no [isFinished()] returns true before some [finish()] has returned. *)
Theorem no_wakeup_before_finish
    (r r' : t) (es before after : list Event) (e : Event) :
  steps r es r' →
  isFinished r = false →
  es = before ++ e :: after →
  e = AwaitFinishedReturned ∨ e = IsFinishedReturned true →
  FinishReturned ∈ before.
Proof.
  intros Hsteps. revert before.
  induction Hsteps as [r | c r e0 r1 es r2 Hc Hs IH];
    intros before Hpending Hsplit He.
  - by destruct before.
  - destruct (perform_status c r r1 e0 Hc) as [[-> ->] | (Hne & -> & Hev)].
    + destruct before as [| b before]; simplify_eq/=.
      * by destruct He.
      * by left.
    + destruct before as [| b before]; simplify_eq/=.
      * rewrite Hpending in Hev.
        destruct He as [-> | ->], Hev as [? | [? ?]]; done.
      * right. by apply IH.
Qed.

Lemma no_wakeup_before_finish_witness :
  FinishReturned ∈ [IsFinishedReturned false; FinishReturned].
Proof.
  apply (no_wakeup_before_finish pendingTable
           (run latchSchedule pendingTable).2
           (run latchSchedule pendingTable).1
           [IsFinishedReturned false; FinishReturned]
           [IsFinishedReturned true] AwaitFinishedReturned);
    [apply run_steps | reflexivity | reflexivity | by left].
Defined.

End LatchTraces.

(** ** Swapping and moving tables *)

Section MoveAndSwap.
Import ResultTable Examples MoreExamples.

(** X4.  Swapping twice (also: move-assigning there and back) gives both
    tables back; one swap hands each table the other's status, column
    count, sort column, variable-width rows and fixed-size pointer, so that
    each materialises to the other's rows, but leaves each table its own
    result types. *)
Theorem swap_involutive (a b : t) :
  swap (swap a b).1 (swap a b).2 = (a, b)
  ∧ moveAssign (moveAssign a b).1 (moveAssign a b).2 = (a, b)
  ∧ moveAssign a b = swap a b
  ∧ _status (swap a b).1 = _status b
  ∧ _status (swap a b).2 = _status a
  ∧ _nofColumns (swap a b).1 = _nofColumns b
  ∧ _nofColumns (swap a b).2 = _nofColumns a
  ∧ _sortedBy (swap a b).1 = _sortedBy b
  ∧ _sortedBy (swap a b).2 = _sortedBy a
  ∧ _varSizeData (swap a b).1 = _varSizeData b
  ∧ _varSizeData (swap a b).2 = _varSizeData a
  ∧ _fixedSizeData (swap a b).1 = _fixedSizeData b
  ∧ _fixedSizeData (swap a b).2 = _fixedSizeData a
  ∧ _resultTypes (swap a b).1 = _resultTypes a
  ∧ _resultTypes (swap a b).2 = _resultTypes b
  ∧ getDataAsVarSize (swap a b).1 = getDataAsVarSize b
  ∧ getDataAsVarSize (swap a b).2 = getDataAsVarSize a.
Proof. destruct a, b. by split_and!. Qed.

(** X5.  Move construction does not carry the result types along: the new
    table reports [KB] for every column, whatever the source declared, and
    the source keeps reporting its own. *)
Theorem move_construction_drops_result_types (source : t) (col : nat) :
  getResultType (moveConstruct source).1 col = KB
  ∧ getResultType (moveConstruct source).2 col = getResultType source col.
Proof. split; [| done]. unfold getResultType. simpl. by destruct col. Qed.

(** X6.  The new table of a move construction materialises to what the
    source materialised to; the source left behind materialises to no rows
    and can be moved from again with the same result. *)
Theorem move_construction_moves_rows (source : t) :
  getDataAsVarSize (moveConstruct source).1 = getDataAsVarSize source
  ∧ getDataAsVarSize (moveConstruct source).2 = Returned []
  ∧ getDataAsVarSize (moveConstruct (moveConstruct source).2).1 = Returned [].
Proof. by split_and!. Qed.

(** [getResultType] gives the declared type of a declared column and
    [KB] from the first undeclared column on. *)
Theorem getResultType_default (r : t) (col : nat) :
  (col < length (_resultTypes r) →
   _resultTypes r !! col = Some (getResultType r col))
  ∧ (length (_resultTypes r) ≤ col → getResultType r col = KB).
Proof.
  unfold getResultType. split.
  - intros Hlt. destruct (lookup_lt_is_Some_2 _ _ Hlt) as [ty Hty].
    by rewrite Hty.
  - intros Hge. by rewrite (lookup_ge_None_2 _ _ Hge).
Qed.

Lemma getResultType_default_witness :
  _resultTypes typedTable !! 1 = Some (getResultType typedTable 1)
  ∧ getResultType typedTable 2 = KB.
Proof.
  split.
  - apply (getResultType_default typedTable 1). simpl. lia.
  - apply (getResultType_default typedTable 2). simpl. lia.
Defined.

End MoveAndSwap.

(** ** Reading through the fixed-size pointer *)

Section FixedSizePointer.
Import ResultTable Examples MoreExamples.

Lemma emplaceAll_length (row : nat → list Id) (size : nat) :
  length (emplaceAll row size) = size.
Proof. by rewrite emplaceAll_map, length_map, length_seq. Qed.

Lemma emplaceAll_Forall (P : list Id → Prop) (row : nat → list Id) (size : nat) :
  (∀ i, P (row i)) → Forall P (emplaceAll row size).
Proof.
  intros Hrow. rewrite emplaceAll_map. apply Forall_forall.
  intros r [i [-> _]]%list_elem_of_fmap. apply Hrow.
Qed.

(** X7.  With no rows in [_varSizeData] and one to five columns, the call
    returns normally exactly when the fixed-size pointer leads to a vector
    of arrays of that many columns; it then returns one row per stored
    array, each with exactly that many entries.  With a null pointer or a
    vector of another arity the read is undefined. *)
Theorem getDataAsVarSize_reads_fixed_pointer (r : t) :
  _varSizeData r = [] →
  1 ≤ _nofColumns r ≤ 5 →
  (∀ v, _fixedSizeData r = Some v → arity v = _nofColumns r →
        ∃ rows, getDataAsVarSize r = Returned rows
                ∧ length rows = length (elements v)
                ∧ Forall (λ row, length row = _nofColumns r) rows)
  ∧ ((∀ v, _fixedSizeData r = Some v → arity v ≠ _nofColumns r) →
     getDataAsVarSize r = Crashed UndefinedBehaviour).
Proof.
  intros Hvar Hn. unfold getDataAsVarSize. rewrite Hvar. simpl.
  assert (_nofColumns r = 1 ∨ _nofColumns r = 2 ∨ _nofColumns r = 3
          ∨ _nofColumns r = 4 ∨ _nofColumns r = 5) as Hcases by lia.
  split.
  - intros v Hfix Harity. rewrite Hfix. unfold derefAs.
    destruct Hcases as [Hc | [Hc | [Hc | [Hc | Hc]]]];
      rewrite Hc in *; simpl; rewrite decide_True by done; simpl;
      eexists; (split; [reflexivity |]);
      (split; [apply emplaceAll_length | by apply emplaceAll_Forall]).
  - intros Hbad. unfold derefAs.
    destruct (_fixedSizeData r) as [v |] eqn:Hfix.
    + specialize (Hbad v eq_refl).
      destruct Hcases as [Hc | [Hc | [Hc | [Hc | Hc]]]];
        rewrite Hc in *; simpl; by rewrite decide_False.
    + destruct Hcases as [Hc | [Hc | [Hc | [Hc | Hc]]]];
        rewrite Hc in *; done.
Qed.

Lemma getDataAsVarSize_reads_fixed_pointer_witness :
  (∃ rows, getDataAsVarSize fixedTable = Returned rows
           ∧ length rows = 3
           ∧ Forall (λ row, length row = 2) rows)
  ∧ getDataAsVarSize emptyVarTable = Crashed UndefinedBehaviour.
Proof.
  assert (1 ≤ 2 ≤ 5) as H2 by lia. assert (1 ≤ 1 ≤ 5) as H1 by lia.
  split.
  - apply (proj1 (getDataAsVarSize_reads_fixed_pointer fixedTable eq_refl H2)
             {| arity := 2; elements := threeRows |}); reflexivity.
  - apply (proj2 (getDataAsVarSize_reads_fixed_pointer emptyVarTable eq_refl
                    H1)).
    intros v Hv. discriminate Hv.
Defined.

End FixedSizePointer.

(** ** Strings in the value getters *)

Section StringGetters.
Import ValueGetters KindGetters NumericGetters MoreExamples.

Lemma append_cons (a : Ascii.ascii) (s t : string) :
  String a s +:+ t = String a (s +:+ t).
Proof. reflexivity. Qed.

Lemma length_append (s t : string) :
  String.length (s +:+ t) = String.length s + String.length t.
Proof.
  induction s as [| a s IH]; [done |].
  rewrite append_cons. simpl. by rewrite IH.
Qed.

Lemma ends_with_append_last (c : Ascii.ascii) (s : string) :
  ends_with c (s +:+ String c "") = true.
Proof.
  induction s as [| a s IH].
  - simpl. by rewrite bool_decide_eq_true_2.
  - rewrite append_cons. destruct s as [| b s]; [| exact IH].
    simpl. by rewrite bool_decide_eq_true_2.
Qed.

Lemma substring_append (s t : string) :
  String.substring 0 (String.length s) (s +:+ t) = s.
Proof.
  induction s as [| a s IH]; [by destruct t |].
  rewrite append_cons. simpl. by rewrite IH.
Qed.

(** X8.  The string getter removes exactly one pair of enclosing quotes:
    a string put between quotes is read back as it was; a string that does
    not both start and end with a quote, or is shorter than two characters,
    is returned unchanged; and [LiteralFromIdGetter] does the same on every
    string. *)
Theorem StringValueGetter_strips_quotes (s : string) (ctx : EvaluationContext) :
  stringValue (String quote (s +:+ String quote "")) ctx = Some s
  ∧ (starts_with quote s = false ∨ ends_with quote s = false
     ∨ String.length s < 2 →
     stringValue s ctx = Some s)
  ∧ LiteralFromIdGetter_string s ctx = stringValue s ctx.
Proof.
  split_and!.
  - unfold stringValue, StringValueGetter_string.
    assert (ends_with quote (String quote (s +:+ String quote "")) = true)
      as Hends.
    { rewrite <- append_cons. apply ends_with_append_last. }
    rewrite Hends.
    assert (String.length (String quote (s +:+ String quote ""))
            = S (S (String.length s))) as Hlen.
    { simpl. rewrite length_append. simpl. lia. }
    rewrite Hlen. rewrite bool_decide_eq_true_2 by lia.
    cbn [starts_with andb]. rewrite bool_decide_eq_true_2 by done.
    cbn [String.substring]. replace (S (S (String.length s)) - 2)
      with (String.length s) by lia.
    by rewrite substring_append.
  - intros Hcase. unfold stringValue, StringValueGetter_string.
    destruct Hcase as [-> | [-> | Hshort]].
    + by rewrite andb_false_r.
    + by rewrite andb_false_r.
    + by rewrite bool_decide_eq_false_2 by lia.
  - reflexivity.
Qed.

Lemma StringValueGetter_strips_quotes_witness :
  stringValue (String quote "") Examples.aliasContext
  = Some (String quote "").
Proof.
  destruct (StringValueGetter_strips_quotes (String quote "")
              Examples.aliasContext) as (_ & Hsame & _).
  apply Hsame. right. right. simpl. lia.
Defined.

(** X9.  On a plain string the regex getter never returns the null
    pointer; the pattern it hands to the engine is the string without one
    pair of enclosing quotes. *)
Theorem RegexValueGetter_string_never_null
    (re2Parses : string → bool) (s : string) (ctx : EvaluationContext) :
  (∃ p, RegexValueGetter re2Parses s ctx
        = Returned (Some {| pattern := p; ok := re2Parses p |}))
  ∧ RegexValueGetter re2Parses (String quote (s +:+ String quote "")) ctx
    = Returned (Some {| pattern := s; ok := re2Parses s |})
  ∧ RegexValueGetter re2Parses (inr s : IdOrString) ctx
    = RegexValueGetter re2Parses s ctx.
Proof.
  split_and!.
  - unfold RegexValueGetter, stringValue, StringValueGetter_string.
    destruct (_ && _); by eexists.
  - unfold RegexValueGetter.
    by rewrite (proj1 (StringValueGetter_strips_quotes s ctx)).
  - reflexivity.
Qed.

Lemma prefix_cons (a c : Ascii.ascii) (p s : string) :
  String.prefix (String a p) (String c s)
  = if Ascii.ascii_dec a c then String.prefix p s else false.
Proof. reflexivity. Qed.

(** Decide every comparison of a character with the first character [c]. *)
Ltac first_char c :=
  repeat match goal with
         | |- context [Ascii.ascii_dec ?a c] =>
             destruct (Ascii.ascii_dec a c); try subst c
         | |- context [Ascii.ascii_dec ?a ?b] =>
             destruct (Ascii.ascii_dec a b); try discriminate
         end.

(** X10.  The three kind getters exclude each other on strings: a string
    is reported as at most one of IRI, blank node and literal; and every
    string that the string getter changes is reported as a literal. *)
Theorem kind_getters_exclusive (s : string) (ctx : EvaluationContext) :
  let yes := ValueId.makeFromBool true in
  let no := ValueId.makeFromBool false in
  (IsIriValueGetter_string s ctx = yes →
   IsBlankNodeValueGetter_string s ctx = no
   ∧ IsLiteralValueGetter_string s ctx = no)
  ∧ (IsBlankNodeValueGetter_string s ctx = yes →
     IsIriValueGetter_string s ctx = no
     ∧ IsLiteralValueGetter_string s ctx = no)
  ∧ (IsLiteralValueGetter_string s ctx = yes →
     IsIriValueGetter_string s ctx = no
     ∧ IsBlankNodeValueGetter_string s ctx = no)
  ∧ (stringValue s ctx ≠ Some s → IsLiteralValueGetter_string s ctx = yes).
Proof.
  cbv zeta.
  unfold IsIriValueGetter_string, IsBlankNodeValueGetter_string,
    IsLiteralValueGetter_string, IsSomethingValueGetter_string,
    isIriPrefix, isBlankPrefix, isLiteralPrefix.
  destruct s as [| c s].
  - split_and!; try discriminate. intros Hchanged. by destruct Hchanged.
  - rewrite !prefix_cons. split_and!.
    + first_char c; done.
    + first_char c; done.
    + first_char c; done.
    + intros Hchanged.
      unfold stringValue, StringValueGetter_string in Hchanged.
      destruct (bool_decide (2 ≤ String.length (String c s))); [| done].
      cbn [starts_with andb] in Hchanged.
      destruct (bool_decide (c = quote)) eqn:Hc; [| done].
      apply bool_decide_eq_true in Hc as ->.
      destruct (Ascii.ascii_dec quote quote) as [_ | Hne];
        [by destruct s | by destruct Hne].
Qed.

Lemma kind_getters_exclusive_witness :
  IsBlankNodeValueGetter_string "<Human>" Examples.aliasContext
  = ValueId.makeFromBool false
  ∧ IsLiteralValueGetter_string "<Human>" Examples.aliasContext
    = ValueId.makeFromBool false.
Proof.
  destruct (kind_getters_exclusive "<Human>" Examples.aliasContext)
    as (Hiri & _).
  apply Hiri. reflexivity.
Defined.

End StringGetters.

(** ** Numeric identifiers *)

Section NumericIds.
Import ValueGetters NumericGetters MoreExamples.

(** X11.  The flag [NanToUndef] turns a NaN into the undefined identifier
    only when the double is passed directly.  A NaN inside a
    [NumericValue] is converted by the visiting lambda with the default
    flag and stays a double, whatever flag the caller chose. *)
Theorem makeNumericId_NaN_in_variant (NanToUndef : bool) (d : Z) :
  isnan d = true →
  makeNumericId_floating true d = ValueId.makeUndefined
  ∧ makeNumericId_floating false d = ValueId.makeFromDoubleBits d
  ∧ makeNumericId_NumericValue NanToUndef (DoubleValue d)
    = ValueId.makeFromDoubleBits d
  ∧ makeNumericId_NumericValue NanToUndef (DoubleValue d)
    ≠ ValueId.makeUndefined.
Proof.
  intros Hnan. unfold makeNumericId_floating. rewrite Hnan.
  split_and!; try done.
Qed.

Lemma makeNumericId_NaN_in_variant_witness :
  makeNumericId_floating true quietNaN = ValueId.makeUndefined
  ∧ makeNumericId_NumericValue true (DoubleValue quietNaN)
    ≠ ValueId.makeUndefined.
Proof.
  destruct (makeNumericId_NaN_in_variant true quietNaN eq_refl)
    as (Hdirect & _ & _ & Hvariant).
  by split.
Defined.

(** X12.  What [makeNumericId] makes of a [NumericValue] is numeric for
    [IsNumericValueGetter] exactly when the value holds a number; a string
    is [NotNumeric] for [NumericValueGetter], becomes the undefined
    identifier, and is not numeric either way. *)
Theorem numeric_value_is_numeric_id
    (NanToUndef : bool) (v : NumericValue) (s : string)
    (ctx : EvaluationContext) :
  IsNumericValueGetter_Id (makeNumericId_NumericValue NanToUndef v) ctx
  = ValueId.makeFromBool
      (match v with NotNumeric => false | _ => true end)
  ∧ makeNumericId_NumericValue NanToUndef (NumericValueGetter_string s ctx)
    = ValueId.makeUndefined
  ∧ IsNumericValueGetter_IdOrString (inr s) ctx = ValueId.makeFromBool false
  ∧ IsNumericValueGetter_IdOrString
      (inl (makeNumericId_NumericValue NanToUndef
              (NumericValueGetter_string s ctx))) ctx
    = ValueId.makeFromBool false.
Proof. by destruct v. Qed.

End NumericIds.

(** ** Cache keys *)

Section CacheKeys.
Import LiteralExpression Examples MoreExamples.

Lemma append_inj_l (s t u : string) : s +:+ u = t +:+ u → s = t.
Proof.
  revert t. induction s as [| a s IH]; intros [| b t] Heq.
  - done.
  - apply (f_equal String.length) in Heq.
    rewrite !length_append in Heq. simpl in Heq. lia.
  - apply (f_equal String.length) in Heq.
    rewrite !length_append in Heq. simpl in Heq. lia.
  - rewrite !append_cons in Heq. injection Heq as -> Heq. f_equal. by apply IH.
Qed.

Lemma token_inj (prefix a b : string) :
  prefix +:+ a +:+ "#" = prefix +:+ b +:+ "#" → a = b.
Proof. intros Heq%String.app_inj. by apply append_inj_l in Heq. Qed.

(** X13.  The key of a variable is made of its column index alone: two
    variables of the mapping have the same key exactly when they are in the
    same column, whatever their names. *)
Theorem getCacheKey_variable_by_column
    (varColMap : VariableToColumnMap) (v1 v2 : SparqlVariable)
    (info1 info2 : ColumnIndexAndTypeInfo) :
  varColMap !! v1 = Some info1 →
  varColMap !! v2 = Some info2 →
  getCacheKey (OfVariable v1) varColMap = getCacheKey (OfVariable v2) varColMap
  ↔ columnIndex_ info1 = columnIndex_ info2.
Proof.
  intros H1 H2. simpl. rewrite H1, H2. split.
  - intros [= Heq]. apply token_inj in Heq. by apply (inj pretty).
  - by intros ->.
Qed.

Lemma getCacheKey_variable_by_column_witness :
  getCacheKey (OfVariable x) threeVariables
  = getCacheKey (OfVariable y) threeVariables
  ∧ getCacheKey (OfVariable x) threeVariables
    ≠ getCacheKey (OfVariable g) threeVariables.
Proof.
  split.
  - apply (getCacheKey_variable_by_column threeVariables x y column3 column3);
      reflexivity.
  - intros Heq.
    apply (getCacheKey_variable_by_column threeVariables x g column3
             {| columnIndex_ := 4; mightContainUndef_ := true |}) in Heq;
      [discriminate Heq | reflexivity | reflexivity].
Defined.

(** X14.  Among variables, identifiers and literals the key tells the
    expressions apart: keys of different kinds differ, two identifiers have
    the same key only with the same bit pattern, two literals only with the
    same raw content. *)
Theorem getCacheKey_separates_constants
    (varColMap : VariableToColumnMap) (v : SparqlVariable)
    (id1 id2 : Id) (l1 l2 : Literal) :
  (getCacheKey (OfValueId id1) varColMap = getCacheKey (OfValueId id2) varColMap
   ↔ ValueId.getBits id1 = ValueId.getBits id2)
  ∧ (getCacheKey (OfLiteral l1) varColMap = getCacheKey (OfLiteral l2) varColMap
     ↔ l1 = l2)
  ∧ getCacheKey (OfValueId id1) varColMap ≠ getCacheKey (OfLiteral l1) varColMap
  ∧ getCacheKey (OfVariable v) varColMap ≠ getCacheKey (OfValueId id1) varColMap
  ∧ getCacheKey (OfVariable v) varColMap ≠ getCacheKey (OfLiteral l1) varColMap.
Proof.
  split_and!.
  - simpl. split.
    + intros [= Heq]. apply token_inj in Heq. by apply (inj pretty).
    + by intros ->.
  - simpl. split.
    + intros [= Heq%String.app_inj]. destruct l1, l2. simpl in Heq. by subst.
    + by intros ->.
  - simpl. rewrite !append_cons. discriminate.
  - simpl. destruct (varColMap !! v); [| discriminate].
    rewrite !append_cons. discriminate.
  - simpl. destruct (varColMap !! v); [| discriminate].
    rewrite !append_cons. discriminate.
Qed.

(** X15.  An expression is constant exactly when it holds no variable, as
    all three observers agree; the key of a constant expression does not
    depend on the column mapping, and the key of a variable exists exactly
    when the mapping has the variable. *)
Theorem constant_iff_no_variable
    (_value : Value) (m1 m2 : VariableToColumnMap) :
  (isConstantExpression _value = true ↔ getVariableOrNullopt _value = None)
  ∧ (getVariableOrNullopt _value = None
     ↔ getUnaggregatedVariables _value = [])
  ∧ (isConstantExpression _value = true →
     getCacheKey _value m1 = getCacheKey _value m2)
  ∧ (∀ v, getVariableOrNullopt _value = Some v →
          getUnaggregatedVariables _value = [v]
          ∧ (isReturned (getCacheKey _value m1) = true ↔ is_Some (m1 !! v))).
Proof.
  destruct _value; simpl; split_and!; try done.
  intros v' [= <-]. split; [done |].
  destruct (m1 !! v) eqn:Hv; simpl.
  - split; [by eexists | done].
  - split; [done | by intros [? ?]].
Qed.

End CacheKeys.

(** ** The cache slot over several evaluations *)

Section CacheSlot.
Import LiteralExpression Examples MoreExamples.

Context `{Build}.

(** What [evaluate] is on a string or literal constant, on either path. *)
Lemma evaluate_text_constant
    (fuel : nat) (isInsideAggregate : bool) (_value : Value)
    (context : EvaluationContext) (others : Cache → Cache) (s : string) :
  constantText _value = Some s →
  (∀ cached,
     evaluate fuel isInsideAggregate _value context (Some cached) others
     = Some {| outcome := Returned (IdOrStringResult cached);
               cacheAfter := Some cached;
               effects := [CacheLoad (Some cached)] |})
  ∧ evaluate fuel isInsideAggregate _value context None others
    = Some (getIdOrString context None others s).
Proof.
  intros Htext.
  destruct _value; simpl in Htext; try discriminate; injection Htext as <-;
    by split.
Qed.

(** X16.  The slot is only ever filled: an evaluation that finds a value
    leaves it there and exchanges nothing, no evaluation leaves the slot
    empty that was not empty before, and expressions that are not string or
    literal constants neither read nor write the slot. *)
Theorem cache_slot_only_filled
    (fuel : nat) (isInsideAggregate : bool) (_value : Value)
    (context : EvaluationContext) (cache : Cache) (others : Cache → Cache)
    (run : Run) :
  evaluate fuel isInsideAggregate _value context cache others = Some run →
  (∀ cached, cache = Some cached →
             cacheAfter run = Some cached
             ∧ ∀ new old, CacheExchange new old ∉ effects run)
  ∧ (cacheAfter run = None → cache = None)
  ∧ (constantText _value = None →
     cacheAfter run = cache ∧ effects run = []).
Proof.
  intros Heval.
  assert (∀ s, Some (getIdOrString context cache others s) = Some run →
               (∀ cached, cache = Some cached →
                          cacheAfter run = Some cached
                          ∧ ∀ new old, CacheExchange new old ∉ effects run)
               ∧ (cacheAfter run = None → cache = None)) as Hstring.
  { intros s [= <-]. unfold getIdOrString. destruct cache as [c |]; simpl.
    - split; [| done]. intros cached [= <-]. split; [done |].
      intros new old Hin. apply list_elem_of_singleton in Hin. discriminate.
    - split; [done | discriminate]. }
  destruct _value as [v | s | l | id | vec]; simpl in Heval.
  - destruct (evaluateIfVariable _ _ _ _); simplify_eq/=.
    split_and!; [| done | done].
    intros cached ->. split; [done |]. intros ??. apply not_elem_of_nil.
  - destruct (Hstring _ Heval). by split_and!.
  - destruct (Hstring _ Heval). by split_and!.
  - simplify_eq/=. split_and!; [| done | done].
    intros cached ->. split; [done |]. intros ??. apply not_elem_of_nil.
  - simplify_eq/=. split_and!; [| done | done].
    intros cached ->. split; [done |]. intros ??. apply not_elem_of_nil.
Qed.

(** X17.  After one evaluation of a string or literal constant on an empty
    slot, also one that was cancelled, every later evaluation returns the
    value computed by the first one after the load alone: without looking
    the string up again, without checking for cancellation, and whatever
    context it is given. *)
Theorem second_evaluation_returns_first_value
    (fuel fuel' : nat) (agg agg' : bool) (_value : Value)
    (context context' : EvaluationContext) (others others' : Cache → Cache)
    (s : string) (first second : Run) :
  constantText _value = Some s →
  evaluate fuel agg _value context None others = Some first →
  evaluate fuel' agg' _value context' (cacheAfter first) others' = Some second →
  let computed : IdOrString :=
    match getId (_qec_index context) s with
    | Some id => inl id
    | None => inr s
    end in
  outcome second = Returned (IdOrStringResult computed)
  ∧ cacheAfter second = Some computed
  ∧ effects second = [CacheLoad (Some computed)]
  ∧ (cancellationHandle_isCancelled context = false →
     outcome second = outcome first).
Proof.
  intros Htext Hfirst Hsecond computed.
  destruct (evaluate_text_constant fuel agg _value context others s Htext)
    as [_ Huncached].
  rewrite Huncached in Hfirst. injection Hfirst as <-.
  destruct (evaluate_text_constant fuel' agg' _value context' others' s Htext)
    as [Hcached _].
  cbn [getIdOrString cacheAfter] in Hsecond.
  rewrite Hcached in Hsecond. injection Hsecond as <-.
  cbn [getIdOrString outcome cacheAfter effects]. split_and!; try done.
  intros Hrunning. unfold throwIfCancelled. by rewrite Hrunning.
Qed.

End CacheSlot.

Section CacheSlotExamples.
Import LiteralExpression Examples MoreExamples.

#[local] Existing Instance debugBuild.

Lemma cache_slot_only_filled_witness :
  cacheAfter
    {| outcome := Returned (IdOrStringResult (inr "<Human>"));
       cacheAfter := Some (inr "<Human>");
       effects := [CacheLoad (Some (inr "<Human>"))] |}
  = Some (inr "<Human>")
  ∧ (CacheExchange (inl (ValueId.makeFromVocabIndex 17)) (Some (inr "<Human>"))
     ∉ [CacheLoad (Some (inr "<Human>" : IdOrString))]).
Proof.
  destruct (cache_slot_only_filled 0 false (OfString "<Human>")
              cancelledContext (Some (inr "<Human>")) id
              {| outcome := Returned (IdOrStringResult (inr "<Human>"));
                 cacheAfter := Some (inr "<Human>");
                 effects := [CacheLoad (Some (inr "<Human>"))] |}
              eq_refl) as (Hkeep & _).
  destruct (Hkeep (inr "<Human>") eq_refl) as [Hafter Hnone].
  split; [exact Hafter | apply Hnone].
Defined.

Lemma second_evaluation_returns_first_value_witness :
  evaluate 0 false (OfString "<Human>") aliasContext
           (Some (inl (ValueId.makeFromVocabIndex 17))) id
  = Some {| outcome :=
              Returned (IdOrStringResult (inl (ValueId.makeFromVocabIndex 17)));
            cacheAfter := Some (inl (ValueId.makeFromVocabIndex 17));
            effects := [CacheLoad (Some (inl (ValueId.makeFromVocabIndex 17)))] |}
  ∧ outcome
      {| outcome :=
           Returned (IdOrStringResult (inl (ValueId.makeFromVocabIndex 17)));
         cacheAfter := Some (inl (ValueId.makeFromVocabIndex 17));
         effects := [CacheLoad (Some (inl (ValueId.makeFromVocabIndex 17)))] |}
    = Returned (IdOrStringResult (inl (ValueId.makeFromVocabIndex 17))).
Proof.
  split; [reflexivity |].
  apply (second_evaluation_returns_first_value 0 0 false false
           (OfString "<Human>") cancelledContext aliasContext id id "<Human>"
           {| outcome := Thrown CancellationException;
              cacheAfter := Some (inl (ValueId.makeFromVocabIndex 17));
              effects :=
                [CacheLoad None; VocabLookup "<Human>";
                 CacheExchange (inl (ValueId.makeFromVocabIndex 17)) None;
                 CancellationCheck] |}
           _ eq_refl eq_refl eq_refl).
Defined.

End CacheSlotExamples.

(** ** More on the resolution of variables *)

Section ResolutionResults.
Import LiteralExpression Examples MoreExamples.

Context `{Build}.

(** X18.  A variable that comes back from the resolution is resolved as
    far as it can be: it is grouped and read inside an aggregate, or it is
    not grouped and no earlier expression of the clause bound it. *)
Theorem evaluateIfVariable_returns_terminal_variable
    (fuel : nat) (isInsideAggregate : bool) (context : EvaluationContext)
    (v w : SparqlVariable) :
  evaluateIfVariable fuel isInsideAggregate context v
  = Some (Returned (VariableResult w)) →
  (w ∈ _groupedVariables context ∧ isInsideAggregate = true)
  ∨ ((w ∉ _groupedVariables context)
     ∧ getResultFromPreviousAggregate context w = None).
Proof.
  revert v. induction fuel as [| fuel IH]; intros v Heval; [done |].
  cbn [evaluateIfVariable] in Heval.
  assert (∀ (grouped : bool) (o : Outcome ExpressionResult),
            (if grouped && negb isInsideAggregate
             then o else Returned (VariableResult v))
            = Returned (VariableResult w) →
            (∀ c, o ≠ Returned (VariableResult c)) →
            w = v ∧ (grouped = true → isInsideAggregate = true)) as Hself.
  { intros grouped o Ho Hnovar.
    destruct grouped, isInsideAggregate; simpl in Ho;
      try (by destruct (Hnovar w)); injection Ho as <-; by split. }
  assert (∀ c, (column ← getColumnIndexForVariable context v;
                constantValue ← IdTable_at (_inputTable context)
                                           (_beginIndex context) column;
                _ ← assert
                      (range ← IdTable_range (_inputTable context)
                                             (_beginIndex context)
                                             (_endIndex context);
                       Returned
                         (forallb
                            (λ row,
                               bool_decide (row !!! column = constantValue))
                            range));
                Returned (IdResult constantValue))
               ≠ Returned (VariableResult c)) as Hconstant.
  { intros c. destruct (getColumnIndexForVariable context v); [| done | done].
    cbn [mbind Outcome_bind bindOutcome].
    destruct (IdTable_at _ _ _); [| done | done].
    cbn [mbind Outcome_bind bindOutcome].
    by destruct (assert _). }
  destruct (getResultFromPreviousAggregate context v) as [result |] eqn:Hprev.
  - destruct (decide (v ∈ _groupedVariables context)) as [Hin | Hnotin].
    + rewrite (bool_decide_eq_true_2 _ Hin) in Heval. cbn [negb] in Heval.
      injection Heval as Heval.
      destruct (Hself true _ Heval Hconstant) as [-> Hagg]. left. auto.
    + rewrite (bool_decide_eq_false_2 _ Hnotin) in Heval. cbn [negb] in Heval.
      destruct result as [| | u |]; simplify_eq/=. by apply (IH u).
  - injection Heval as Heval.
    destruct (Hself _ _ Heval Hconstant) as [-> Hagg].
    destruct (decide (v ∈ _groupedVariables context)) as [Hin | Hnotin].
    + left. split; [done |]. apply Hagg. by apply bool_decide_eq_true_2.
    + right. by split.
Qed.

Lemma aliasRank_decreases (v w : SparqlVariable) :
  getResultFromPreviousAggregate aliasContext v = Some (VariableResult w) →
  v ∉ _groupedVariables aliasContext →
  aliasRank w < aliasRank v.
Proof.
  intros Hprev _. unfold getResultFromPreviousAggregate in Hprev.
  simpl in Hprev. unfold aliasRank.
  destruct (decide (v = y)) as [-> | Hvy].
  - rewrite lookup_insert_eq in Hprev. injection Hprev as <-.
    rewrite decide_False by discriminate. lia.
  - rewrite lookup_insert_ne in Hprev by done.
    destruct (decide (v = x)) as [-> | Hvx].
    + by rewrite lookup_singleton_eq in Hprev.
    + by rewrite lookup_singleton_ne in Hprev.
Qed.

(** X19.  When the renamings are acyclic, so that some rank decreases
    along each of them, the resolution of a variable ends, within one call
    more than its rank, and with one result however many more calls are
    allowed. *)
Theorem evaluateIfVariable_ends_when_acyclic
    (isInsideAggregate : bool) (context : EvaluationContext)
    (rank : SparqlVariable → nat) (v : SparqlVariable) :
  (∀ u w, getResultFromPreviousAggregate context u = Some (VariableResult w) →
          u ∉ _groupedVariables context → rank w < rank u) →
  ∃ o, ∀ fuel, rank v < fuel →
               evaluateIfVariable fuel isInsideAggregate context v = Some o.
Proof.
  intros Hrank.
  destruct (evaluateIfVariable_terminates isInsideAggregate context rank Hrank v)
    as [o Ho].
  exists o. intros fuel Hfuel.
  apply (evaluateIfVariable_fuel_mono isInsideAggregate context
           (S (rank v)) fuel); [lia | exact Ho].
Qed.

(** X20.  Renamings that lead in a circle are never resolved: from a
    variable of a set of variables that are not grouped and are each
    renamed to a variable of the set, no number of calls gives a result. *)
Theorem evaluateIfVariable_cycle_never_returns
    (isInsideAggregate : bool) (context : EvaluationContext)
    (circle : SparqlVariable → Prop) (fuel : nat) (v : SparqlVariable) :
  (∀ u, circle u →
        (u ∉ _groupedVariables context)
        ∧ ∃ u', getResultFromPreviousAggregate context u
                = Some (VariableResult u') ∧ circle u') →
  circle v →
  evaluateIfVariable fuel isInsideAggregate context v = None.
Proof.
  intros Hcircle. revert v.
  induction fuel as [| fuel IH]; intros v Hv; [done |].
  destruct (Hcircle v Hv) as (Hnotin & u' & Hprev & Hu').
  rewrite (evaluateIfVariable_renaming isInsideAggregate context fuel v u')
    by done.
  by apply IH.
Qed.

(** X21.  Inside an aggregate a grouped variable is handed back as a
    variable, to be read row by row, whether or not an earlier expression
    bound it and whether or not the mapping has a column for it; so is,
    anywhere, a variable that is neither grouped nor bound by an earlier
    expression.  Neither case reads the table or the mapping. *)
Theorem evaluateIfVariable_leaves_variable
    (fuel : nat) (isInsideAggregate : bool) (context : EvaluationContext)
    (v : SparqlVariable) :
  (v ∈ _groupedVariables context ∧ isInsideAggregate = true)
  ∨ ((v ∉ _groupedVariables context)
     ∧ getResultFromPreviousAggregate context v = None) →
  evaluateIfVariable (S fuel) isInsideAggregate context v
  = Some (Returned (VariableResult v)).
Proof.
  intros [[Hin ->] | [Hnotin Hprev]]; cbn [evaluateIfVariable].
  - rewrite (bool_decide_eq_true_2 _ Hin). cbn [negb andb].
    by destruct (getResultFromPreviousAggregate context v).
  - rewrite Hprev. by rewrite (bool_decide_eq_false_2 _ Hnotin).
Qed.

(** X22.  On an empty row range, [_endIndex = _beginIndex], the check of
    the grouped column passes whatever the table holds, in either build:
    the resolution returns the identifier found in the row at
    [_beginIndex], a row that is not part of the range. *)
Theorem evaluateIfVariable_empty_range
    (fuel : nat) (context : EvaluationContext) (v : SparqlVariable)
    (info : ColumnIndexAndTypeInfo) (constantValue : Id) :
  _endIndex context = _beginIndex context →
  v ∈ _groupedVariables context →
  _variableToColumnMap context !! v = Some info →
  IdTable_at (_inputTable context) (_beginIndex context) (columnIndex_ info)
  = Returned constantValue →
  evaluateIfVariable (S fuel) false context v
  = Some (Returned (IdResult constantValue)).
Proof.
  intros Hempty Hgrouped Hcol Hat.
  rewrite (evaluateIfVariable_grouped fuel context v info constantValue)
    by done.
  destruct (IdTable_at_Returned _ _ _ _ Hat) as (r & Hrow%lookup_lt_Some & _).
  unfold IdTable_range. rewrite Hempty.
  rewrite bool_decide_eq_true_2 by lia.
  replace (_beginIndex context - _beginIndex context) with 0 by lia.
  unfold assert. by destruct NDEBUG.
Qed.

(** X23.  When [_endIndex] is before [_beginIndex] or past the end of the
    table, the two iterators of the check are no range: in a build without
    [NDEBUG] going over them is undefined; in a build with [NDEBUG] the
    check is not there and the identifier of the row at [_beginIndex] is
    returned. *)
Theorem evaluateIfVariable_invalid_range
    (fuel : nat) (context : EvaluationContext) (v : SparqlVariable)
    (info : ColumnIndexAndTypeInfo) (constantValue : Id) :
  v ∈ _groupedVariables context →
  _variableToColumnMap context !! v = Some info →
  IdTable_at (_inputTable context) (_beginIndex context) (columnIndex_ info)
  = Returned constantValue →
  ¬ (_beginIndex context ≤ _endIndex context
                         ≤ length (rows (_inputTable context))) →
  (NDEBUG = false →
   evaluateIfVariable (S fuel) false context v
   = Some (Crashed UndefinedBehaviour))
  ∧ (NDEBUG = true →
     evaluateIfVariable (S fuel) false context v
     = Some (Returned (IdResult constantValue))).
Proof.
  intros Hgrouped Hcol Hat Hinvalid.
  rewrite (evaluateIfVariable_grouped fuel context v info constantValue)
    by done.
  unfold IdTable_range. rewrite (bool_decide_eq_false_2 _ Hinvalid).
  unfold assert. by split; intros ->.
Qed.

End ResolutionResults.

Section ResolutionExamples.
Import LiteralExpression Examples MoreExamples.

#[local] Existing Instance debugBuild.

Lemma evaluateIfVariable_returns_terminal_variable_witness :
  (x ∈ _groupedVariables renamingContext ∧ false = true)
  ∨ ((x ∉ _groupedVariables renamingContext)
     ∧ getResultFromPreviousAggregate renamingContext x = None).
Proof.
  apply (evaluateIfVariable_returns_terminal_variable 2 false renamingContext
           y x).
  reflexivity.
Defined.

Lemma evaluateIfVariable_ends_when_acyclic_witness :
  ∃ o, ∀ fuel, aliasRank y < fuel →
               evaluateIfVariable fuel false aliasContext y = Some o.
Proof.
  apply (evaluateIfVariable_ends_when_acyclic false aliasContext aliasRank y).
  exact aliasRank_decreases.
Defined.

Lemma evaluateIfVariable_cycle_never_returns_witness :
  evaluateIfVariable 1000 false twoCycleContext x = None.
Proof.
  apply (evaluateIfVariable_cycle_never_returns false twoCycleContext
           (λ u, u = x ∨ u = y)); [| by left].
  intros u [-> | ->]; (split; [set_solver |]).
  - exists y. split; [reflexivity | by right].
  - exists x. split; [reflexivity | by left].
Defined.

Lemma evaluateIfVariable_leaves_variable_witness :
  evaluateIfVariable 1 true (groupedContext sevensAndEight) g
  = Some (Returned (VariableResult g))
  ∧ evaluateIfVariable 1 false renamingContext x
    = Some (Returned (VariableResult x)).
Proof.
  split.
  - apply (evaluateIfVariable_leaves_variable 0 true
             (groupedContext sevensAndEight) g).
    left. split; [set_solver | reflexivity].
  - apply (evaluateIfVariable_leaves_variable 0 false renamingContext x).
    right. split; [set_solver | reflexivity].
Defined.

Lemma evaluateIfVariable_empty_range_witness :
  evaluateIfVariable 1 false (emptyRangeContext sevensAndEight) g
  = Some (Returned (IdResult (int 8))).
Proof.
  apply (evaluateIfVariable_empty_range 0 (emptyRangeContext sevensAndEight) g
           {| columnIndex_ := 2; mightContainUndef_ := false |} (int 8));
    [reflexivity | set_solver | reflexivity | reflexivity].
Defined.

Lemma evaluateIfVariable_invalid_range_witness :
  @evaluateIfVariable debugBuild 1 false (rangeContext 3 1 sevens) g
  = Some (Crashed UndefinedBehaviour)
  ∧ @evaluateIfVariable releaseBuild 1 false (rangeContext 3 1 sevens) g
    = Some (Returned (IdResult (int 7))).
Proof.
  assert (g ∈ ({[ g ]} : gset SparqlVariable)) as Hg by set_solver.
  split.
  - apply (@evaluateIfVariable_invalid_range debugBuild 0
             (rangeContext 3 1 sevens) g
             {| columnIndex_ := 2; mightContainUndef_ := false |} (int 7));
      [exact Hg | reflexivity | reflexivity | simpl; lia | reflexivity].
  - apply (@evaluateIfVariable_invalid_range releaseBuild 0
             (rangeContext 3 1 sevens) g
             {| columnIndex_ := 2; mightContainUndef_ := false |} (int 7));
      [exact Hg | reflexivity | reflexivity | simpl; lia | reflexivity].
Defined.

End ResolutionExamples.
